(** * Commit-time estimation: a shallow embedding of [src/commitsParser.js]

    The development follows the JavaScript source function by function:
    [commitsParser._parse], [commitsParser._calculation],
    [commitsParser.standardCalculation] and [commitsParser.equalCalculation].
    The built-ins the source calls (number arithmetic, [parseInt], [Date],
    [String.prototype.split], [RegExp.prototype.exec], lodash's [_.round] and
    [_.groupBy]) are modelled in the modules [JS] and [Lodash].

    Numbers.  A JavaScript number is modelled by [JS.num]: an exact rational,
    [NaN], or a signed infinity.  The rounding error and the overflow of
    binary64 arithmetic and the sign of zero are not modelled; every other
    rule of the language that the source relies on is written out ([0/0] is
    [NaN], [NaN] compares false with everything, [NaN] and [0] are falsy,
    [parseInt] of a number goes through its decimal string). *)

From Stdlib Require Import ZArith QArith Qround Qabs Qpower Lqa Lia List Ascii String Sorted.
From stdpp Require Import gmap strings list.

Open Scope Z_scope.

(* ===================================================================== *)
(** ** JavaScript built-ins *)
(* ===================================================================== *)

Module JS.

(** *** Numbers *)

Inductive num : Type :=
| NaN : num
| Inf (negative : bool) : num
| Fin (q : Q) : num.

Definition of_Z (z : Z) : num := Fin (inject_Z z).
Definition of_nat (n : nat) : num := of_Z (Z.of_nat n).

Definition Qzero (q : Q) : bool := Qnum q =? 0.
Definition Qneg (q : Q) : bool := Qnum q <? 0.
Definition Qltb (a b : Q) : bool := negb (Qle_bool b a).

(** [a + b] *)
Definition add (a b : num) : num :=
  match a, b with
  | NaN, _ | _, NaN => NaN
  | Fin x, Fin y => Fin (Qred (x + y))
  | Inf s, Fin _ | Fin _, Inf s => Inf s
  | Inf s, Inf s' => if Bool.eqb s s' then Inf s else NaN
  end.

(** [-a] *)
Definition neg (a : num) : num :=
  match a with
  | NaN => NaN
  | Inf s => Inf (negb s)
  | Fin x => Fin (Qred (- x))
  end.

(** [a - b] *)
Definition sub (a b : num) : num := add a (neg b).

(** [a * b] *)
Definition mul (a b : num) : num :=
  match a, b with
  | NaN, _ | _, NaN => NaN
  | Fin x, Fin y => Fin (Qred (x * y))
  | Inf s, Fin y | Fin y, Inf s =>
      if Qzero y then NaN else Inf (xorb s (Qneg y))
  | Inf s, Inf s' => Inf (xorb s s')
  end.

(** [a / b]; a zero divisor is taken as [+0]. *)
Definition div (a b : num) : num :=
  match a, b with
  | NaN, _ | _, NaN => NaN
  | Fin x, Fin y =>
      if Qzero y then (if Qzero x then NaN else Inf (Qneg x))
      else Fin (Qred (x / y))
  | Fin _, Inf _ => Fin 0
  | Inf s, Fin y => Inf (xorb s (Qneg y))
  | Inf _, Inf _ => NaN
  end.

(** [a < b]: false as soon as one side is [NaN]. *)
Definition ltb (a b : num) : bool :=
  match a, b with
  | NaN, _ | _, NaN => false
  | Fin x, Fin y => Qltb x y
  | Inf s, Fin _ => s
  | Fin _, Inf s => negb s
  | Inf s, Inf s' => s && negb s'
  end.

(** ToBoolean on a number: [NaN] and zero are falsy. *)
Definition truthy (a : num) : bool :=
  match a with
  | NaN => false
  | Inf _ => true
  | Fin x => negb (Qzero x)
  end.

(** [a || b] on numbers. *)
Definition or (a b : num) : num := if truthy a then a else b.

(** [Math.round]: the nearest integer, a tie going towards [+Infinity]. *)
Definition Math_round (a : num) : num :=
  match a with
  | Fin x => of_Z (Qfloor (x + (1 # 2)))
  | _ => a
  end.

(** [Math.floor] *)
Definition Math_floor (a : num) : num :=
  match a with
  | Fin x => of_Z (Qfloor x)
  | _ => a
  end.

(** Truncation towards zero (ToIntegerOrInfinity on a finite number). *)
Definition Qtrunc (q : Q) : Z := Z.quot (Qnum q) (Zpos (Qden q)).

(** The first significant decimal digit of a positive integer, resp. of a
    positive rational. *)
Fixpoint lead_digit_Z (fuel : nat) (n : Z) : Z :=
  match fuel with
  | O => n
  | S fuel' => if n <? 10 then n else lead_digit_Z fuel' (n / 10)
  end.

Fixpoint lead_digit_frac (fuel : nat) (q : Q) : Z :=
  match fuel with
  | O => Qfloor q
  | S fuel' => if Qle_bool 1 q then Qfloor q else lead_digit_frac fuel' (q * 10)
  end.

Definition lead_digit (q : Q) : Z :=
  if Qle_bool 1 q
  then lead_digit_Z (Z.to_nat (Z.log2 (Qfloor q))) (Qfloor q)
  else lead_digit_frac (S (Z.to_nat (Z.log2 (Zpos (Qden q))))) (Qred q).

Definition Qabs' (q : Q) : Q := if Qneg q then - q else q.

(** [parseInt(x, 10)] for a number [x].  The argument is first converted
    to a string.  Number::toString writes a finite [x] in plain decimal
    notation when [1e-6 <= |x| < 1e21], so the digits before the point are
    read: truncation.  Outside that range the string is in exponent
    notation, [d.ddde-7] or [d.ddde+21], and only the leading digit [d] is
    read.  ["NaN"] and ["Infinity"] have no leading digit. *)
Definition parseInt_num (a : num) : num :=
  match a with
  | NaN | Inf _ => NaN
  | Fin x =>
      if Qzero x then of_Z 0
      else
        let m := Qabs' x in
        let sign := if Qneg x then (-1) else 1 in
        if Qltb m (1 # 1000000) || Qle_bool (inject_Z (10 ^ 21)) m
        then of_Z (sign * lead_digit m)
        else of_Z (Qtrunc x)
  end.

(** *** Strings *)

Definition is_digit (c : ascii) : bool :=
  let n := N_of_ascii c in (48 <=? n)%N && (n <=? 57)%N.

Definition digit_val (c : ascii) : Z := Z.of_N (N_of_ascii c) - 48.

(** White space and line terminators (the ASCII ones). *)
Definition is_space (c : ascii) : bool :=
  let n := N_of_ascii c in ((9 <=? n)%N && (n <=? 13)%N) || (n =? 32)%N.

(** [s.split(sep)] for a one-character separator.  The result always has a
    first element, so it is given as that element and the rest. *)
Fixpoint split_first (sep : ascii) (s : string) : string * list string :=
  match s with
  | EmptyString => (EmptyString, [])
  | String c s' =>
      let (h, t) := split_first sep s' in
      if Ascii.eqb c sep then (EmptyString, h :: t) else (String c h, t)
  end.

Definition split (sep : ascii) (s : string) : list string :=
  let (h, t) := split_first sep s in h :: t.

(** The longest prefix of decimal digits, and what follows it. *)
Fixpoint take_digits (s : string) : string * string :=
  match s with
  | String c s' =>
      if is_digit c
      then let (ds, rest) := take_digits s' in (String c ds, rest)
      else (EmptyString, s)
  | EmptyString => (EmptyString, EmptyString)
  end.

(** The value of a string of decimal digits, read left to right. *)
Fixpoint digits_val (acc : Z) (s : string) : Z :=
  match s with
  | EmptyString => acc
  | String c s' => digits_val (10 * acc + digit_val c) s'
  end.

Fixpoint drop_space (s : string) : string :=
  match s with
  | String c s' => if is_space c then drop_space s' else s
  | EmptyString => EmptyString
  end.

Definition rev_string (s : string) : string :=
  string_of_list_ascii (List.rev (list_ascii_of_string s)).

Definition trim (s : string) : string :=
  rev_string (drop_space (rev_string (drop_space s))).

(** An optional sign: [true] for ["-"]. *)
Definition take_sign (s : string) : bool * string :=
  match s with
  | String "-"%char s' => (true, s')
  | String "+"%char s' => (false, s')
  | _ => (false, s)
  end.

(** [parseInt(s, 10)] for a string [s]: leading white space, an optional
    sign, then the longest run of digits; [NaN] when there is no digit. *)
Definition parseInt_str (s : string) : num :=
  let (negative, s1) := take_sign (drop_space s) in
  let (ds, _) := take_digits s1 in
  match ds with
  | EmptyString => NaN
  | _ => of_Z (if negative then - digits_val 0 ds else digits_val 0 ds)
  end.

(** A regular expression of the form [/([0-9]+) word/] tried at the start
    of [s]: the digits are greedy, and giving some of them back cannot help
    since the literal starts with a space.  The result is capture group 1. *)
Definition match_count_at (word : string) (s : string) : option string :=
  let (ds, rest) := take_digits s in
  match ds with
  | EmptyString => None
  | _ => if String.prefix (String " "%char word) rest then Some ds else None
  end.

(** [/([0-9]+) word/.exec(s)]: the leftmost match, [None] for [null]. *)
Fixpoint exec_count (word : string) (s : string) : option string :=
  match match_count_at word s with
  | Some ds => Some ds
  | None =>
      match s with
      | EmptyString => None
      | String _ s' => exec_count word s'
      end
  end.

(** ToString of an optional string argument: [undefined] reads
    ["undefined"]. *)
Definition ToString_opt (o : option string) : string :=
  match o with
  | Some s => s
  | None => "undefined"%string
  end.

(** *** ToNumber on strings (StringToNumber) *)

Definition radix_digit (radix : Z) (c : ascii) : option Z :=
  let n := Z.of_N (N_of_ascii c) in
  let v := if (48 <=? n) && (n <=? 57) then n - 48
           else if (97 <=? n) && (n <=? 102) then n - 87
           else if (65 <=? n) && (n <=? 70) then n - 55
           else 16 in
  if v <? radix then Some v else None.

Fixpoint radix_val (radix : Z) (acc : Z) (s : string) : option Z :=
  match s with
  | EmptyString => Some acc
  | String c s' =>
      match radix_digit radix c with
      | Some v => radix_val radix (radix * acc + v) s'
      | None => None
      end
  end.

Definition radix_literal (radix : Z) (s : string) : num :=
  match s with
  | EmptyString => NaN
  | _ => match radix_val radix 0 s with Some v => of_Z v | None => NaN end
  end.

(** The exponent part: empty, or [e]/[E], an optional sign and digits, up
    to the end of the string. *)
Definition exponent_part (s : string) : option Z :=
  match s with
  | EmptyString => Some 0
  | String c s' =>
      if Ascii.eqb c "e" || Ascii.eqb c "E" then
        let (negative, s1) := take_sign s' in
        match take_digits s1 with
        | (String d ds, EmptyString) =>
            let e := digits_val 0 (String d ds) in
            Some (if negative then - e else e)
        | _ => None
        end
      else None
  end.

(** StrUnsignedDecimalLiteral: [Infinity], [ddd.ddd e], [.ddd e], [ddd e]. *)
Definition unsigned_decimal (s : string) : num :=
  if String.eqb s "Infinity" then Inf false
  else
    let (int_ds, r1) := take_digits s in
    let '(dot, frac_ds, r2) :=
      match r1 with
      | String "."%char r => let (f, r') := take_digits r in (true, f, r')
      | _ => (false, EmptyString, r1)
      end in
    if (String.length int_ds =? 0)%nat && (String.length frac_ds =? 0)%nat
    then NaN
    else
      match exponent_part r2 with
      | None => NaN
      | Some e =>
          let mant := digits_val (digits_val 0 int_ds) frac_ds in
          let scale := e - Z.of_nat (String.length frac_ds) in
          Fin (Qred (inject_Z mant * Qpower 10 scale))
      end.

(** ToNumber of a string: white space is trimmed, the empty string is [0],
    [0x], [0o] and [0b] literals are unsigned, anything that is not a
    numeric literal is [NaN]. *)
Definition ToNumber_str (s : string) : num :=
  match trim s with
  | EmptyString => of_Z 0
  | String "0"%char (String x r) =>
      if Ascii.eqb x "x" || Ascii.eqb x "X" then radix_literal 16 r
      else if Ascii.eqb x "o" || Ascii.eqb x "O" then radix_literal 8 r
      else if Ascii.eqb x "b" || Ascii.eqb x "B" then radix_literal 2 r
      else unsigned_decimal (trim s)
  | t =>
      match t with
      | String "-"%char r => neg (unsigned_decimal r)
      | String "+"%char r => unsigned_decimal r
      | _ => unsigned_decimal t
      end
  end.

(** ToNumber of a value that is a string or [undefined]. *)
Definition ToNumber_opt (o : option string) : num :=
  match o with
  | Some s => ToNumber_str s
  | None => NaN
  end.

(** *** Dates *)

Inductive Date : Type :=
| InvalidDate : Date
| TimeValue (ms : Z) : Date.

(** [new Date(n)]: TimeClip. *)
Definition new_Date (n : num) : Date :=
  match n with
  | Fin q =>
      if Qltb (inject_Z 8640000000000000) (Qabs' q) then InvalidDate
      else TimeValue (Qtrunc q)
  | _ => InvalidDate
  end.

(** [d.getTime()] *)
Definition getTime (d : Date) : num :=
  match d with
  | InvalidDate => NaN
  | TimeValue ms => of_Z ms
  end.

Definition msPerDay : Z := 86400000.

(** Year, month and day of a day number counted from 1970-01-01, in the
    proleptic Gregorian calendar. *)
Definition civil_from_days (day : Z) : Z * Z * Z :=
  let z := day + 719468 in
  let era := z / 146097 in
  let doe := z mod 146097 in
  let yoe := (doe - doe / 1460 + doe / 36524 - doe / 146096) / 365 in
  let doy := doe - (365 * yoe + yoe / 4 - yoe / 100) in
  let mp := (5 * doy + 2) / 153 in
  let d := doy - (153 * mp + 2) / 5 + 1 in
  let m := if mp <? 10 then mp + 3 else mp - 9 in
  let y := yoe + era * 400 + (if m <=? 2 then 1 else 0) in
  (y, m, d).

Definition digit_char (n : Z) : ascii := ascii_of_N (Z.to_N (48 + n mod 10)).

(** [n] written with exactly [width] decimal digits. *)
Fixpoint pad_digits (width : nat) (n : Z) (acc : string) : string :=
  match width with
  | O => acc
  | S w => pad_digits w (n / 10) (String (digit_char n) acc)
  end.

Definition year_string (y : Z) : string :=
  if (0 <=? y) && (y <=? 9999) then pad_digits 4 y ""
  else if y <? 0 then String "-" (pad_digits 6 (- y) "")
  else String "+" (pad_digits 6 y "").

Inductive error : Type :=
| RangeError_invalid_time_value : error.

(** What running a piece of the program comes to: a value, an exception,
    or the end of the process. *)
Inductive outcome (A : Type) : Type :=
| Return (a : A)
| Throw (e : error)
| Exit (code : Z).
Arguments Return {A} a.
Arguments Throw {A} e.
Arguments Exit {A} code.

Definition bind {A B : Type} (m : outcome A) (k : A -> outcome B) : outcome B :=
  match m with
  | Return a => k a
  | Throw e => Throw e
  | Exit c => Exit c
  end.

(** The ISO 8601 form [YYYY-MM-DDTHH:mm:ss.sssZ] of a time value. *)
Definition isoString (t : Z) : string :=
  let '(y, m, dd) := civil_from_days (t / msPerDay) in
  let tod := t mod msPerDay in
  (year_string y ++ "-" ++ pad_digits 2 m "" ++ "-" ++ pad_digits 2 dd ""
   ++ "T" ++ pad_digits 2 (tod / 3600000) ""
   ++ ":" ++ pad_digits 2 (tod / 60000 mod 60) ""
   ++ ":" ++ pad_digits 2 (tod / 1000 mod 60) ""
   ++ "." ++ pad_digits 3 (tod mod 1000) "" ++ "Z")%string.

(** [d.toISOString()]: an invalid date throws a RangeError. *)
Definition toISOString (d : Date) : outcome string :=
  match d with
  | InvalidDate => Throw RangeError_invalid_time_value
  | TimeValue t => Return (isoString t)
  end.

End JS.

(* ===================================================================== *)
(** ** lodash *)
(* ===================================================================== *)

Module Lodash.
Import JS.

(** [_.round(number, precision)] for an integer [precision].  The precision
    is capped at 292.  With a non-zero precision and a finite number the
    decimal exponent is shifted, [Math.round] is applied and the exponent is
    shifted back; otherwise the result is [Math.round(number)]. *)
Definition round (number : num) (precision : Z) : num :=
  let p := Z.min precision 292 in
  match number with
  | Fin q =>
      if p =? 0 then Math_round number
      else
        match Math_round (Fin (q * Qpower 10 p)) with
        | Fin v => Fin (Qred (v * Qpower 10 (- p)))
        | other => other
        end
  | _ => Math_round number
  end.

(** [_.groupBy(collection, key)]: an object from each key to the array of
    the elements with that key, in the order met; [Object.keys] lists the
    keys in the order of their first element.  The groups hold references to
    the elements of the collection, which are given here by their index. *)
Fixpoint group_insert (k : string) (i : nat) (gs : list (string * list nat))
  : list (string * list nat) :=
  match gs with
  | [] => [(k, [i])]
  | (k', members) :: gs' =>
      if String.eqb k k' then (k', members ++ [i]) :: gs'
      else (k', members) :: group_insert k i gs'
  end.

Definition groupBy {A : Type} (key : A -> string) (collection : list A)
  : list (string * list nat) :=
  fold_left (fun gs ix => group_insert (key (snd ix)) (fst ix) gs)
            (combine (seq 0 (length collection)) collection) [].

End Lodash.

(* ===================================================================== *)
(** ** commitsParser.js *)
(* ===================================================================== *)

Module commitsParser.
Import JS.

(** One scanned repository: its [.git] folder and the raw text of each of
    its commits. *)
Module Raw.
Record RepositoriesCommits : Type := {
  gitFolder : string;
  commits : list string
}.
End Raw.

Record Settings : Type := {
  startTime : Date;
  endTime : Date;
  maxHoursPerDay : num;
  graduation : num;
  minCommitTime : num;
  equalRoundPrecision : Z
}.

(** A commit object.  [time] and [isMinCommitTime] are absent from a parsed
    commit: [time = None] reads [undefined], and [isMinCommitTime = false]
    stands for the absent property (the source only ever sets it to
    [true] and only tests its truthiness). *)
Record Commit : Type := {
  fullhash : string;
  hash : option string;
  date : Date;
  shortDate : string;
  text : option string;
  project : option string;
  lines : num;
  time : option num;
  isMinCommitTime : bool
}.

Definition set_time (t : num) (c : Commit) : Commit :=
  {| fullhash := fullhash c; hash := hash c; date := date c;
     shortDate := shortDate c; text := text c; project := project c;
     lines := lines c; time := Some t; isMinCommitTime := isMinCommitTime c |}.

Definition set_isMinCommitTime (c : Commit) : Commit :=
  {| fullhash := fullhash c; hash := hash c; date := date c;
     shortDate := shortDate c; text := text c; project := project c;
     lines := lines c; time := time c; isMinCommitTime := true |}.

(** Reading [commit.time] as a number. *)
Definition time_of (c : Commit) : num :=
  match time c with
  | Some t => t
  | None => NaN
  end.

Record CalculatedCommit : Type := {
  commits : list Commit;
  commitsLengthMap : gmap string nat
}.

(** [path.sep] (POSIX). *)
Definition path_sep : ascii := "/"%char.

Definition newline : ascii := ascii_of_N 10.

(** [parseInt(x, 10)] where [x] is a captured string, or the number [0]
    that the destructuring default puts in place of [undefined]. *)
Definition parseInt_count (x : option string) : num :=
  match x with
  | Some s => parseInt_str s
  | None => parseInt_num (of_Z 0)
  end.

(** The callback of [gitReport.commits.map] in [_parse]. *)
Definition parseCommit (gitFolder : string) (commit : string) : outcome Commit :=
  let (description, rest) := split_first newline commit in
  let modifications := nth_error rest 0 in
  let (fullhash, fields) := split_first ";" description in
  let hash := nth_error fields 0 in
  let datetime := nth_error fields 1 in
  let text := nth_error fields 2 in
  let deletions := exec_count "deletions" (ToString_opt modifications) in
  let insertions := exec_count "insertions" (ToString_opt modifications) in
  let date := new_Date (mul (ToNumber_opt datetime) (of_Z 1000)) in
  bind (toISOString date) (fun iso =>
  Return {| fullhash := fullhash;
            hash := hash;
            date := date;
            shortDate := fst (split_first "T" iso);
            text := text;
            project := nth_error (List.rev (split path_sep gitFolder)) 1;
            lines := add (parseInt_count insertions) (parseInt_count deletions);
            time := None;
            isMinCommitTime := false |}).

(** [array.map(f)] for a callback that can throw. *)
Fixpoint mapM {A B : Type} (f : A -> outcome B) (l : list A) : outcome (list B) :=
  match l with
  | [] => Return []
  | x :: l' => bind (f x) (fun y => bind (mapM f l') (fun ys => Return (y :: ys)))
  end.

(** The comparator [(commitA, commitB) => commitA.date - commitB.date]. *)
Definition compareDates (commitA commitB : Commit) : num :=
  sub (getTime (date commitA)) (getTime (date commitB)).

(** [array.sort(comparator)]: a stable sort; [x] is put after [y] when
    [comparator(x, y) > 0]. *)
Fixpoint sort_insert (cmp : Commit -> Commit -> num) (x : Commit) (l : list Commit)
  : list Commit :=
  match l with
  | [] => [x]
  | y :: l' => if ltb (of_Z 0) (cmp x y) then y :: sort_insert cmp x l' else x :: l
  end.

Definition sort (cmp : Commit -> Commit -> num) (l : list Commit) : list Commit :=
  fold_right (sort_insert cmp) [] l.

(** The filter of [_parse]: strictly inside the window. *)
Definition in_window (settings : Settings) (c : Commit) : bool :=
  ltb (getTime (startTime settings)) (getTime (date c))
  && ltb (getTime (date c)) (getTime (endTime settings)).

(** The [reduce] of [_parse]: the commits of all repositories, parsed and
    concatenated; the first commit that cannot be parsed throws. *)
Definition parseAll (rawCommits : list Raw.RepositoriesCommits) : outcome (list Commit) :=
  fold_left
    (fun commitArray gitReport =>
       bind commitArray (fun acc =>
       bind (mapM (parseCommit (Raw.gitFolder gitReport)) (Raw.commits gitReport))
            (fun parsed => Return (acc ++ parsed))))
    rawCommits (Return []).

Definition _parse (rawCommits : list Raw.RepositoriesCommits) (settings : Settings)
  : outcome (list Commit) :=
  bind (parseAll rawCommits) (fun all =>
  Return (sort compareDates (List.filter (in_window settings) all))).

(** [!commitsLengthMap[key]]: an absent entry and [0] are falsy. *)
Definition entry_missing (m : gmap string nat) (key : string) : bool :=
  match m !! key with
  | Some n => (n =? 0)%nat
  | None => true
  end.

(** One round of the [forEach] of [_calculation], on the commit at index
    [i] of the array [cs].  The commit objects are updated in place, so the
    array is threaded through the loop together with [commitsLengthMap]. *)
Definition calculation_step (timeCalculationMethod : num -> num)
    (acc : list Commit * gmap string nat) (i : nat) : list Commit * gmap string nat :=
  let (cs, commitsLengthMap) := acc in
  match cs !! i with
  | None => acc
  | Some filteredCommit =>
      let dayCommits :=
        List.filter (fun commit => String.eqb (shortDate commit) (shortDate filteredCommit)) cs in
      let linesInDay := fold_left (fun prev act => add prev (lines act)) dayCommits (of_Z 0) in
      let ratio := div (lines filteredCommit) linesInDay in
      (alter (set_time (timeCalculationMethod ratio)) i cs,
       if entry_missing commitsLengthMap (shortDate filteredCommit)
       then <[shortDate filteredCommit := length dayCommits]> commitsLengthMap
       else commitsLengthMap)
  end.

(** The loop, visiting the indices in [order]. *)
Definition calculation_loop (timeCalculationMethod : num -> num) (order : list nat)
    (cs : list Commit) : list Commit * gmap string nat :=
  fold_left (calculation_step timeCalculationMethod) order (cs, ∅).

(** [_calculation]: [process.exit(0)] when no commit is left.  The lines
    written to the console are left out. *)
Definition _calculation (rawCommits : list Raw.RepositoriesCommits) (settings : Settings)
    (timeCalculationMethod : num -> num) : outcome CalculatedCommit :=
  bind (_parse rawCommits settings) (fun parsed =>
  let (cs, commitsLengthMap) :=
    calculation_loop timeCalculationMethod (seq 0 (length parsed)) parsed in
  if (length cs =? 0)%nat then Exit 0
  else Return {| commits := cs; commitsLengthMap := commitsLengthMap |}).

(** The time of the standard method:
    [parseInt((ratio * maxHoursPerDay) / graduation, 10) * graduation || minCommitTime]. *)
Definition standardTime (settings : Settings) (ratio : num) : num :=
  or (mul (parseInt_num (div (mul ratio (maxHoursPerDay settings)) (graduation settings)))
          (graduation settings))
     (minCommitTime settings).

Definition standardCalculation (rawCommits : list Raw.RepositoriesCommits)
    (settings : Settings) : outcome CalculatedCommit :=
  _calculation rawCommits settings (standardTime settings).

(** The time of the equal method before the per-day pass. *)
Definition equalTime (settings : Settings) (ratio : num) : num :=
  mul ratio (maxHoursPerDay settings).

(** First [forEach] of a day: clamp to [minCommitTime], flag and count. *)
Definition clamp_step (settings : Settings) (acc : list Commit * nat) (i : nat)
  : list Commit * nat :=
  let (cs, minCommitTimeCommits) := acc in
  match cs !! i with
  | None => acc
  | Some commit =>
      if ltb (time_of commit) (minCommitTime settings)
      then (alter (fun c => set_isMinCommitTime (set_time (minCommitTime settings) c)) i cs,
            S minCommitTimeCommits)
      else acc
  end.

(** Second [forEach]: the commits that are not flagged are rescaled. *)
Definition rescale_commit (settings : Settings) (newMaxHoursPerDay : num) (c : Commit)
  : Commit :=
  if negb (isMinCommitTime c)
  then set_time (mul (div (time_of c) (maxHoursPerDay settings)) newMaxHoursPerDay) c
  else c.

(** Third [forEach]: the two roundings. *)
Definition round_commit (settings : Settings) (c : Commit) : Commit :=
  set_time (Lodash.round (Lodash.round (time_of c) (equalRoundPrecision settings + 1))
                         (equalRoundPrecision settings)) c.

(** [array.forEach] with a callback that updates the element it is given. *)
Definition forEach_alter (f : Commit -> Commit) (members : list nat) (cs : list Commit)
  : list Commit :=
  fold_left (fun st i => alter f i st) members cs.

(** The body of the loop over the days, for the day whose commits are at
    the indices [members]. *)
Definition equalDay (settings : Settings) (cs : list Commit) (members : list nat)
  : list Commit :=
  let (cs1, minCommitTimeCommits) := fold_left (clamp_step settings) members (cs, O) in
  let newMaxHoursPerDay :=
    sub (maxHoursPerDay settings) (mul (of_nat minCommitTimeCommits) (minCommitTime settings)) in
  let cs2 :=
    if (minCommitTimeCommits =? 0)%nat then cs1
    else forEach_alter (rescale_commit settings newMaxHoursPerDay) members cs1 in
  forEach_alter (round_commit settings) members cs2.

Definition equalCalculation (rawCommits : list Raw.RepositoriesCommits)
    (settings : Settings) : outcome CalculatedCommit :=
  bind (_calculation rawCommits settings (equalTime settings)) (fun calculation =>
  let shortDateGrouped := Lodash.groupBy shortDate (commits calculation) in
  Return {| commits := fold_left (fun cs group => equalDay settings cs (snd group))
                                 shortDateGrouped (commits calculation);
            commitsLengthMap := commitsLengthMap calculation |}).

End commitsParser.

(* ===================================================================== *)
(** ** Notions used to state the properties *)
(* ===================================================================== *)

Import JS commitsParser.

(** The fields that [_parse] gives to a commit, without the two that the
    calculation adds. *)
Definition parsedFields (c : Commit) : Commit :=
  {| fullhash := fullhash c; hash := hash c; date := date c;
     shortDate := shortDate c; text := text c; project := project c;
     lines := lines c; time := None; isMinCommitTime := false |}.

(** The day bucket of [sd] in [cs], its size and its sum of lines. *)
Definition dayCommitsOf (sd : string) (cs : list Commit) : list Commit :=
  List.filter (fun commit => String.eqb (shortDate commit) sd) cs.

Definition dayCount (sd : string) (cs : list Commit) : nat :=
  length (dayCommitsOf sd cs).

Definition linesInDayOf (sd : string) (cs : list Commit) : num :=
  fold_left (fun prev act => add prev (lines act)) (dayCommitsOf sd cs) (of_Z 0).

(** The share of a commit in the lines of its day. *)
Definition ratioOf (cs : list Commit) (c : Commit) : num :=
  div (lines c) (linesInDayOf (shortDate c) cs).

(** The commit [c] of the array [cs] once [_calculation] has visited it. *)
Definition timed (timeCalculationMethod : num -> num) (cs : list Commit) (c : Commit)
  : Commit :=
  set_time (timeCalculationMethod (ratioOf cs c)) c.

(** The two roundings that end the equal method. *)
Definition roundTwice (settings : Settings) (t : num) : num :=
  Lodash.round (Lodash.round t (equalRoundPrecision settings + 1))
               (equalRoundPrecision settings).

(** [0 <= t] on numbers: [NaN] is not. *)
Definition nonneg (t : num) : Prop :=
  match t with
  | NaN => False
  | Inf negative => negative = false
  | Fin q => (0 <= q)%Q
  end.

(** [NaN], or a number that is not negative. *)
Definition nan_or_nonneg (t : num) : Prop := t = NaN \/ nonneg t.

(** The sum of a list of numbers. *)
Definition sum (ts : list num) : num := fold_left add ts (of_Z 0).

(** The time that the specification gives for the standard method:
    [floor((ratio * maxHoursPerDay) / graduation) * graduation], and
    [minCommitTime] when that evaluates to [0]. *)
Definition floorTime (settings : Settings) (ratio : num) : num :=
  let v := mul (Math_floor (div (mul ratio (maxHoursPerDay settings)) (graduation settings)))
               (graduation settings) in
  match v with
  | Fin q => if Qzero q then minCommitTime settings else v
  | _ => v
  end.

(** A commit block: the description line, a line feed, the stats line. *)
Definition commitBlock (description stats : string) : string :=
  (description ++ String newline stats)%string.

(** A property of every commit that a computation returns, for a
    computation that does not end the process. *)
Definition returns_all (P : Commit -> Prop) (o : outcome (list Commit)) : Prop :=
  match o with
  | Return l => Forall P l
  | Throw _ => True
  | Exit _ => False
  end.

(** A commit as [parseCommit] builds it: no time, no flag, a valid date,
    and a number of lines that is a natural number. *)
Definition fresh (c : Commit) : Prop :=
  parsedFields c = c /\ (exists t, date c = TimeValue t)
  /\ (exists n, 0 <= n /\ lines c = of_Z n).

(** The time value of a commit with a valid date. *)
Definition timeValueOf (c : Commit) : Z :=
  match date c with
  | TimeValue t => t
  | InvalidDate => 0
  end.

(** Commits with valid dates, and lists in ascending order of date. *)
Definition has_valid_date (c : Commit) : Prop := exists t, date c = TimeValue t.

Definition ascending : list Commit -> Prop :=
  StronglySorted (fun a b => timeValueOf a <= timeValueOf b).

(** What the first [forEach] of a day does to one commit. *)
Definition clampCommit (settings : Settings) (c : Commit) : Commit :=
  if ltb (time_of c) (minCommitTime settings)
  then set_isMinCommitTime (set_time (minCommitTime settings) c)
  else c.

(** The budget left for the commits that are not flagged. *)
Definition newMaxHoursPerDayOf (settings : Settings) (minCommitTimeCommits : nat) : num :=
  sub (maxHoursPerDay settings) (mul (of_nat minCommitTimeCommits) (minCommitTime settings)).

(** A commit that has a time. *)
Definition has_time (c : Commit) : Prop := time c <> None.

(** The stats line and the epoch-seconds field of a block, when present. *)
Definition statsLine (block : string) : option string :=
  nth_error (snd (split_first newline block)) 0.

Definition epochField (block : string) : option string :=
  nth_error (snd (split_first ";" (fst (split_first newline block)))) 1.

(** The date that [parseCommit] builds from the epoch-seconds field. *)
Definition blockDate (block : string) : Date :=
  new_Date (mul (ToNumber_opt (epochField block)) (of_Z 1000)).

(** The count in front of [word] in the stats line, [0] without a match. *)
Definition countOf (word : string) (stats : option string) : Z :=
  match exec_count word (ToString_opt stats) with
  | Some ds => digits_val 0 ds
  | None => 0
  end.

(* ===================================================================== *)
(** ** Concrete logs and settings *)
(* ===================================================================== *)

(** March 2021, eight hours a day, steps and minimum of a quarter of an
    hour, two digits. *)
Definition exampleSettings : Settings :=
  {| startTime := TimeValue 1614556800000;
     endTime := TimeValue 1617235200000;
     maxHoursPerDay := of_Z 8;
     graduation := Fin (1 # 4);
     minCommitTime := Fin (1 # 4);
     equalRoundPrecision := 2 |}.

(** One repository with two commits of the same day, of 10 and 90 lines. *)
Definition exampleLog : list Raw.RepositoriesCommits :=
  [ {| Raw.gitFolder := "/home/dev/report/.git";
       Raw.commits :=
         [ commitBlock "fb1eb3ead0e20fed1029bea0edd7626964df326b;fb1eb3e;1614816000;Add parser"
                       " 1 file changed, 10 insertions(+)";
           commitBlock "0c2d4e6f8a1b3c5d7e9f0a2b4c6d8e0f1a3b5c7d;0c2d4e6;1614819600;Add tests"
                       " 2 files changed, 40 insertions(+), 50 deletions(-)" ] |} ].

(** The two commits of [exampleLog] as [_parse] returns them. *)
Definition exampleFirst : Commit :=
  {| fullhash := "fb1eb3ead0e20fed1029bea0edd7626964df326b";
     hash := Some "fb1eb3e"%string;
     date := TimeValue 1614816000000;
     shortDate := "2021-03-04";
     text := Some "Add parser"%string;
     project := Some "report"%string;
     lines := of_Z 10;
     time := None;
     isMinCommitTime := false |}.

Definition exampleSecond : Commit :=
  {| fullhash := "0c2d4e6f8a1b3c5d7e9f0a2b4c6d8e0f1a3b5c7d";
     hash := Some "0c2d4e6"%string;
     date := TimeValue 1614819600000;
     shortDate := "2021-03-04";
     text := Some "Add tests"%string;
     project := Some "report"%string;
     lines := of_Z 90;
     time := None;
     isMinCommitTime := false |}.

(** What the standard method returns on [exampleLog]: 0.75 and 7 hours. *)
Definition exampleStandard : CalculatedCommit :=
  {| commits := [set_time (Fin (3 # 4)) exampleFirst; set_time (of_Z 7) exampleSecond];
     commitsLengthMap := {[ "2021-03-04"%string := 2%nat ]} |}.

(** Times rounded to one digit, a minimum of a quarter of an hour. *)
Definition oneDigitSettings : Settings :=
  {| startTime := TimeValue 1614556800000;
     endTime := TimeValue 1617235200000;
     maxHoursPerDay := of_Z 8;
     graduation := Fin (1 # 4);
     minCommitTime := Fin (1 # 4);
     equalRoundPrecision := 1 |}.

(** A day of two commits, of 2 and 98 lines: with 8 hours a day the first
    one starts at 0.16 hours, below a minimum of 0.25. *)
Definition smallCommitLog : list Raw.RepositoriesCommits :=
  [ {| Raw.gitFolder := "/home/dev/report/.git";
       Raw.commits :=
         [ commitBlock "fb1eb3ead0e20fed1029bea0edd7626964df326b;fb1eb3e;1614816000;Fix typo"
                       " 1 file changed, 2 insertions(+)";
           commitBlock "0c2d4e6f8a1b3c5d7e9f0a2b4c6d8e0f1a3b5c7d;0c2d4e6;1614819600;Add tests"
                       " 2 files changed, 48 insertions(+), 50 deletions(-)" ] |} ].

(** The two commits of [smallCommitLog] as [_parse] returns them, and what
    the equal method returns with [oneDigitSettings]. *)
Definition smallCommit : Commit :=
  {| fullhash := "fb1eb3ead0e20fed1029bea0edd7626964df326b";
     hash := Some "fb1eb3e"%string;
     date := TimeValue 1614816000000;
     shortDate := "2021-03-04";
     text := Some "Fix typo"%string;
     project := Some "report"%string;
     lines := of_Z 2;
     time := None;
     isMinCommitTime := false |}.

Definition largeCommit : Commit :=
  {| fullhash := "0c2d4e6f8a1b3c5d7e9f0a2b4c6d8e0f1a3b5c7d";
     hash := Some "0c2d4e6"%string;
     date := TimeValue 1614819600000;
     shortDate := "2021-03-04";
     text := Some "Add tests"%string;
     project := Some "report"%string;
     lines := of_Z 98;
     time := None;
     isMinCommitTime := false |}.

Definition smallCommitResult : CalculatedCommit :=
  {| commits := [set_isMinCommitTime (set_time (Fin (3 # 10)) smallCommit);
                 set_time (Fin (38 # 5)) largeCommit];
     commitsLengthMap := {[ "2021-03-04"%string := 2%nat ]} |}.

(** A block cut after the short hash: no epoch-seconds, no message, no
    stats line. *)
Definition truncatedLog : list Raw.RepositoriesCommits :=
  [ {| Raw.gitFolder := "/home/dev/report/.git";
       Raw.commits := [ "fb1eb3ead0e20fed1029bea0edd7626964df326b;fb1eb3e"%string ] |} ].

(** A block without a stats line. *)
Definition noStatsBlock : string :=
  "fb1eb3ead0e20fed1029bea0edd7626964df326b;fb1eb3e;1614816000;Merge branch".

(** A day with a commit of 2 lines and a commit of 99999998 lines. *)
Definition hugeDayLog : list Raw.RepositoriesCommits :=
  [ {| Raw.gitFolder := "/home/dev/report/.git";
       Raw.commits :=
         [ commitBlock "fb1eb3ead0e20fed1029bea0edd7626964df326b;fb1eb3e;1614816000;Fix typo"
                       " 1 file changed, 2 insertions(+)";
           commitBlock "0c2d4e6f8a1b3c5d7e9f0a2b4c6d8e0f1a3b5c7d;0c2d4e6;1614819600;Import data"
                       " 1 file changed, 99999998 insertions(+)" ] |} ].

(** Eight hours a day, at least one hour a commit, two digits. *)
Definition hourSettings : Settings :=
  {| startTime := TimeValue 1614556800000;
     endTime := TimeValue 1617235200000;
     maxHoursPerDay := of_Z 8;
     graduation := Fin (1 # 4);
     minCommitTime := of_Z 1;
     equalRoundPrecision := 2 |}.

(** A day of three commits, of 82, 13 and 5 lines. *)
Definition unevenDayLog : list Raw.RepositoriesCommits :=
  [ {| Raw.gitFolder := "/home/dev/report/.git";
       Raw.commits :=
         [ commitBlock "fb1eb3ead0e20fed1029bea0edd7626964df326b;fb1eb3e;1614816000;Add parser"
                       " 3 files changed, 82 insertions(+)";
           commitBlock "0c2d4e6f8a1b3c5d7e9f0a2b4c6d8e0f1a3b5c7d;0c2d4e6;1614819600;Add tests"
                       " 1 file changed, 13 insertions(+)";
           commitBlock "9a8b7c6d5e4f3a2b1c0d9e8f7a6b5c4d3e2f1a0b;9a8b7c6;1614823200;Fix typo"
                       " 1 file changed, 5 insertions(+)" ] |} ].

(** A day whose only commit changes one line: git writes the counts in
    the singular, which the two patterns do not match. *)
Definition oneLineLog : list Raw.RepositoriesCommits :=
  [ {| Raw.gitFolder := "/home/dev/report/.git";
       Raw.commits :=
         [ commitBlock "fb1eb3ead0e20fed1029bea0edd7626964df326b;fb1eb3e;1614816000;Fix typo"
                       " 1 file changed, 1 insertion(+), 1 deletion(-)" ] |} ].

(** A day of ten commits: one of 910 lines and nine of 10 lines. *)
Definition busyDayLog : list Raw.RepositoriesCommits :=
  [ {| Raw.gitFolder := "/home/dev/report/.git";
       Raw.commits :=
         commitBlock "fb1eb3ead0e20fed1029bea0edd7626964df326b;fb1eb3e;1614816000;Add parser"
                     " 3 files changed, 910 insertions(+)"
         :: List.map
              (fun seconds =>
                 commitBlock ("0c2d4e6f8a1b3c5d7e9f0a2b4c6d8e0f1a3b5c7d;0c2d4e6;"
                              ++ seconds ++ ";Fix typo")
                             " 1 file changed, 10 insertions(+)")
              ["1614819600"; "1614819700"; "1614819800"; "1614819900"; "1614820000";
               "1614820100"; "1614820200"; "1614820300"; "1614820400"]%string |} ].

(* ===================================================================== *)
(** ** Further notions *)
(* ===================================================================== *)

(** A commit whose date has the time value [t]. *)
Definition atTime (t : Z) (c : Commit) : bool := timeValueOf c =? t.

(** The number of commits at the indices [members] of the array [cs]
    whose time is below [minCommitTime]. *)
Definition clampCount (settings : Settings) (cs : list Commit) (members : list nat) : nat :=
  length (List.filter
            (fun j => match cs !! j with
                      | Some c => ltb (time_of c) (minCommitTime settings)
                      | None => false
                      end) members).

(** What a day of the equal method, with [k] clamped commits, does to one
    of its commits. *)
Definition equalDayCommit (settings : Settings) (k : nat) (c : Commit) : Commit :=
  round_commit settings
    ((if (k =? 0)%nat then (fun x => x)
      else rescale_commit settings (newMaxHoursPerDayOf settings k))
       (clampCommit settings c)).

(** The number of commits of the day [sd] whose first allocation
    [ratio * maxHoursPerDay] is below [minCommitTime]. *)
Definition belowMinInDay (settings : Settings) (parsed : list Commit) (sd : string) : nat :=
  length (List.filter
            (fun c => ltb (equalTime settings (ratioOf parsed c)) (minCommitTime settings))
            (dayCommitsOf sd parsed)).

(** The final time of the equal method for a commit whose first allocation
    is [t0], in a day with [k] commits below [minCommitTime]. *)
Definition equalFinalTime (settings : Settings) (k : nat) (t0 : num) : num :=
  roundTwice settings
    (if ltb t0 (minCommitTime settings) then minCommitTime settings
     else if (k =? 0)%nat then t0
     else mul (div t0 (maxHoursPerDay settings)) (newMaxHoursPerDayOf settings k)).

(** The indices of the elements of [l] whose key is [k]. *)
Definition indicesOfKey {A : Type} (key : A -> string) (l : list A) (k : string) : list nat :=
  List.filter (fun i => match l !! i with
                        | Some x => String.eqb (key x) k
                        | None => false
                        end) (seq 0 (length l)).



(** A day with a single commit, of 12 lines. *)
Definition singleCommitLog : list Raw.RepositoriesCommits :=
  [ {| Raw.gitFolder := "/home/dev/report/.git";
       Raw.commits :=
         [ commitBlock "fb1eb3ead0e20fed1029bea0edd7626964df326b;fb1eb3e;1614816000;Add parser"
                       " 2 files changed, 7 insertions(+), 5 deletions(-)" ] |} ].

Definition singleCommit : Commit :=
  {| fullhash := "fb1eb3ead0e20fed1029bea0edd7626964df326b";
     hash := Some "fb1eb3e"%string;
     date := TimeValue 1614816000000;
     shortDate := "2021-03-04";
     text := Some "Add parser"%string;
     project := Some "report"%string;
     lines := of_Z 12;
     time := None;
     isMinCommitTime := false |}.

(** Whether the character [c] occurs in [s]. *)
Fixpoint has_char (c : ascii) (s : string) : bool :=
  match s with
  | EmptyString => false
  | String x s' => Ascii.eqb x c || has_char c s'
  end.

(** The segments [first], [rest] joined by the separator [sep]. *)
Fixpoint joinWith (sep : ascii) (first : string) (rest : list string) : string :=
  match rest with
  | [] => first
  | s :: rest' => (first ++ String sep (joinWith sep s rest'))%string
  end.

(** The UTC calendar date of a time value, as [YYYY-MM-DD]. *)
Definition utcDate (t : Z) : string :=
  let '(y, m, dd) := civil_from_days (t / msPerDay) in
  (year_string y ++ "-" ++ pad_digits 2 m "" ++ "-" ++ pad_digits 2 dd "")%string.

(** A string of decimal digits. *)
Fixpoint all_digits (s : string) : bool :=
  match s with
  | EmptyString => true
  | String c s' => is_digit c && all_digits s'
  end.




(* ===================================================================== *)
(** ** The commit objects keep their parsed fields *)
(* ===================================================================== *)

Lemma parsedFields_set_time t c : parsedFields (set_time t c) = parsedFields c.
Proof. reflexivity. Qed.

Lemma parsedFields_set_isMinCommitTime c :
  parsedFields (set_isMinCommitTime c) = parsedFields c.
Proof. reflexivity. Qed.

Lemma parsedFields_shortDate c1 c2 :
  parsedFields c1 = parsedFields c2 -> shortDate c1 = shortDate c2.
Proof. intros H. apply (f_equal shortDate) in H. exact H. Qed.

Lemma parsedFields_lines c1 c2 :
  parsedFields c1 = parsedFields c2 -> lines c1 = lines c2.
Proof. intros H. apply (f_equal lines) in H. exact H. Qed.

Lemma parsedFields_alter (f : Commit -> Commit) i (cs : list Commit) :
  (forall c, parsedFields (f c) = parsedFields c) ->
  parsedFields <$> alter f i cs = parsedFields <$> cs.
Proof.
  intros Hf. revert i. induction cs as [|c cs IH]; intros [|i]; simpl; try reflexivity.
  - now rewrite Hf.
  - f_equal. apply IH.
Qed.

Lemma parsedFields_forEach_alter (f : Commit -> Commit) members (cs : list Commit) :
  (forall c, parsedFields (f c) = parsedFields c) ->
  parsedFields <$> forEach_alter f members cs = parsedFields <$> cs.
Proof.
  intros Hf. unfold forEach_alter. revert cs.
  induction members as [|i members IH]; intros cs; simpl; [reflexivity|].
  rewrite IH. now apply parsedFields_alter.
Qed.

(** The day bucket only depends on the parsed fields. *)
Lemma day_bucket_parsedFields sd (cs1 cs2 : list Commit) :
  parsedFields <$> cs1 = parsedFields <$> cs2 ->
  dayCount sd cs1 = dayCount sd cs2 /\ linesInDayOf sd cs1 = linesInDayOf sd cs2.
Proof.
  unfold dayCount, linesInDayOf, dayCommitsOf. generalize (of_Z 0).
  revert cs2. induction cs1 as [|c1 cs1 IH]; intros [|c2 cs2] acc H;
    simpl in H; try discriminate; [split; reflexivity|].
  pose proof (f_equal head H) as Hc. pose proof (f_equal tail H) as Hcs.
  simpl in Hc, Hcs. apply (inj Some) in Hc. clear H. simpl.
  rewrite (parsedFields_shortDate _ _ Hc).
  destruct (String.eqb (shortDate c2) sd); simpl.
  - rewrite (parsedFields_lines _ _ Hc).
    destruct (IH cs2 (add acc (lines c2)) Hcs) as [Hn Hl]. split; congruence.
  - now apply IH.
Qed.

Lemma ratioOf_parsedFields (cs1 cs2 : list Commit) c1 c2 :
  parsedFields <$> cs1 = parsedFields <$> cs2 -> parsedFields c1 = parsedFields c2 ->
  ratioOf cs1 c1 = ratioOf cs2 c2.
Proof.
  intros Hcs Hc. unfold ratioOf.
  rewrite (parsedFields_lines _ _ Hc), (parsedFields_shortDate _ _ Hc).
  now destruct (day_bucket_parsedFields (shortDate c2) _ _ Hcs) as [_ ->].
Qed.

(* ===================================================================== *)
(** ** The loop of [_calculation] *)
(* ===================================================================== *)

Section CalculationLoop.

Variable timeCalculationMethod : num -> num.

Let step := calculation_step timeCalculationMethod.
Let loop := calculation_loop timeCalculationMethod.

Lemma alter_absent (f : Commit -> Commit) i (cs : list Commit) :
  cs !! i = None -> alter f i cs = cs.
Proof.
  intros H. apply list_eq. intros j. rewrite list_lookup_alter.
  destruct (decide (i = j)) as [->|]; [now rewrite H|reflexivity].
Qed.

Lemma calculation_step_commits cs m i :
  (step (cs, m) i).1 = alter (timed timeCalculationMethod cs) i cs.
Proof.
  unfold step, calculation_step. destruct (cs !! i) as [fc|] eqn:E; simpl.
  - apply list_alter_ext; [|reflexivity]. intros x Hx.
    rewrite E in Hx. injection Hx as <-. reflexivity.
  - symmetry. now apply alter_absent.
Qed.

Lemma calculation_loop_snoc order i cs :
  loop (order ++ [i]) cs = step (loop order cs) i.
Proof. unfold loop, calculation_loop. now rewrite fold_left_app. Qed.

Lemma parsedFields_timed cs c :
  parsedFields (timed timeCalculationMethod cs c) = parsedFields c.
Proof. reflexivity. Qed.

Lemma calculation_loop_parsedFields order cs :
  parsedFields <$> (loop order cs).1 = parsedFields <$> cs.
Proof.
  induction order as [|i order IH] using rev_ind; [reflexivity|].
  rewrite calculation_loop_snoc. destruct (loop order cs) as [cs' m'].
  rewrite calculation_step_commits, parsedFields_alter; [exact IH|].
  intros c. apply parsedFields_timed.
Qed.

Lemma calculation_loop_length order cs : length (loop order cs).1 = length cs.
Proof.
  rewrite <- (length_fmap parsedFields (loop order cs).1).
  now rewrite calculation_loop_parsedFields, length_fmap.
Qed.

Lemma timed_again cs cs' c :
  parsedFields <$> cs' = parsedFields <$> cs ->
  timed timeCalculationMethod cs' (timed timeCalculationMethod cs c)
  = timed timeCalculationMethod cs c.
Proof.
  intros H. unfold timed at 1.
  rewrite (ratioOf_parsedFields cs' cs (timed timeCalculationMethod cs c) c H
             (parsedFields_timed cs c)).
  reflexivity.
Qed.

Lemma timed_first cs cs' c :
  parsedFields <$> cs' = parsedFields <$> cs ->
  timed timeCalculationMethod cs' c = timed timeCalculationMethod cs c.
Proof.
  intros H. unfold timed. now rewrite (ratioOf_parsedFields cs' cs c c H eq_refl).
Qed.

(** Each commit that the loop visits gets its time from its share in the
    lines of its day; the other commits are left as they are. *)
Lemma calculation_loop_lookup order cs i :
  (loop order cs).1 !! i
  = if decide (i ∈ order) then timed timeCalculationMethod cs <$> cs !! i else cs !! i.
Proof.
  induction order as [|j order IH] using rev_ind.
  - simpl. destruct (decide (i ∈ [])) as [H|]; [inversion H|reflexivity].
  - rewrite calculation_loop_snoc.
    pose proof (calculation_loop_parsedFields order cs) as Hp.
    destruct (loop order cs) as [cs' m']. simpl in IH, Hp.
    rewrite calculation_step_commits, list_lookup_alter.
    destruct (decide (j = i)) as [->|Hne].
    + rewrite decide_True by (apply elem_of_app; right; apply list_elem_of_singleton; reflexivity).
      assert (Hj : cs' !! i = cs !! i \/ cs' !! i = timed timeCalculationMethod cs <$> cs !! i).
      { rewrite IH. destruct (decide (i ∈ order)); auto. }
      destruct (cs !! i) as [c|]; destruct Hj as [-> | ->]; simpl; try reflexivity.
      * f_equal. now apply timed_first.
      * f_equal. now apply timed_again.
    + rewrite IH. destruct (decide (i ∈ order)) as [Hin|Hnin].
      * rewrite decide_True by (apply elem_of_app; now left). reflexivity.
      * rewrite decide_False; [reflexivity|].
        intros [H|H]%elem_of_app; [contradiction|].
        apply list_elem_of_singleton in H. congruence.
Qed.

Lemma dayCount_pos cs i c : cs !! i = Some c -> (0 < dayCount (shortDate c) cs)%nat.
Proof.
  intros H. unfold dayCount, dayCommitsOf.
  assert (Hin : In c (List.filter (fun commit => String.eqb (shortDate commit) (shortDate c)) cs)).
  { apply filter_In. split; [|apply String.eqb_refl].
    apply list_elem_of_In. eapply list_elem_of_lookup_2. exact H. }
  destruct (List.filter _ cs); [destruct Hin|simpl; lia].
Qed.

(** [commitsLengthMap] has an entry for the day of each commit that the
    loop has visited, and the entry is the size of that day bucket. *)
Lemma calculation_loop_map order cs sd n :
  (loop order cs).2 !! sd = Some n
  <-> n = dayCount sd cs /\ exists i c, i ∈ order /\ cs !! i = Some c /\ shortDate c = sd.
Proof.
  revert sd n. induction order as [|j order IH] using rev_ind; intros sd n.
  - simpl. rewrite lookup_empty. split; [discriminate|].
    intros [_ (i & c & Hi & _)]. inversion Hi.
  - rewrite calculation_loop_snoc.
    pose proof (calculation_loop_parsedFields order cs) as Hp.
    pose proof (calculation_loop_lookup order cs j) as Hl.
    destruct (loop order cs) as [cs' m']. simpl in IH, Hp, Hl.
    unfold step, calculation_step.
    destruct (cs' !! j) as [fc|] eqn:E.
    + assert (Hfc : exists c, cs !! j = Some c /\ shortDate c = shortDate fc).
      { destruct (cs !! j) as [c|]; [|destruct (decide (j ∈ order)); discriminate].
        exists c. split; [reflexivity|].
        destruct (decide (j ∈ order)); simpl in Hl; injection Hl as ->; reflexivity. }
      destruct Hfc as (c & Hc & Hsd).
      assert (Hcount : length (List.filter
                 (fun commit => String.eqb (shortDate commit) (shortDate fc)) cs')
               = dayCount (shortDate fc) cs).
      { change (dayCount (shortDate fc) cs' = dayCount (shortDate fc) cs).
        now destruct (day_bucket_parsedFields (shortDate fc) _ _ Hp) as [-> _]. }
      pose proof (dayCount_pos cs j c Hc) as Hpos. rewrite Hsd in Hpos.
      simpl. rewrite Hcount. unfold entry_missing.
      destruct (m' !! shortDate fc) as [n0|] eqn:Em.
      * apply IH in Em as Em'. destruct Em' as [-> _].
        destruct (Nat.eqb_spec (dayCount (shortDate fc) cs) 0) as [H0|_]; [lia|].
        rewrite IH. split; intros [-> (i & ci & Hi & Hci & Hs)]; (split; [reflexivity|]).
        -- exists i, ci. split; [apply elem_of_app; now left|auto].
        -- apply elem_of_app in Hi as [Hi|Hi]; [now exists i, ci|].
           apply list_elem_of_singleton in Hi. subst i.
           rewrite Hc in Hci. injection Hci as <-.
           apply IH in Em as [_ (i' & c' & Hi' & Hc' & Hs')].
           exists i', c'. split; [exact Hi'|]. split; [exact Hc'|congruence].
      * destruct (decide (shortDate fc = sd)) as [<-|Hne].
        -- rewrite lookup_insert_eq. split.
           ++ intros [= <-]. split; [reflexivity|]. exists j, c.
              split; [apply elem_of_app; right; now apply list_elem_of_singleton|auto].
           ++ intros [-> _]. reflexivity.
        -- rewrite lookup_insert_ne by exact Hne. rewrite IH.
           split; intros [-> (i & ci & Hi & Hci & Hs)]; (split; [reflexivity|]).
           ++ exists i, ci. split; [apply elem_of_app; now left|auto].
           ++ apply elem_of_app in Hi as [Hi|Hi]; [now exists i, ci|].
              apply list_elem_of_singleton in Hi. subst i.
              rewrite Hc in Hci. injection Hci as <-. congruence.
    + simpl. rewrite IH.
      split; intros [-> (i & ci & Hi & Hci & Hs)]; (split; [reflexivity|]).
      * exists i, ci. split; [apply elem_of_app; now left|auto].
      * apply elem_of_app in Hi as [Hi|Hi]; [now exists i, ci|].
        apply list_elem_of_singleton in Hi. subst i.
        rewrite Hci in Hl. destruct (decide (j ∈ order)); discriminate.
Qed.

End CalculationLoop.

(* ===================================================================== *)
(** ** Comparisons of integer numbers *)
(* ===================================================================== *)

Lemma ltb_of_Z a b : ltb (of_Z a) (of_Z b) = (a <? b).
Proof.
  unfold ltb, of_Z, Qltb, Qle_bool, inject_Z. simpl.
  rewrite !Z.mul_1_r.
  destruct (Z.leb_spec b a), (Z.ltb_spec a b); simpl; try reflexivity; lia.
Qed.

Lemma compare_of_Z a b : ltb (of_Z 0) (sub (of_Z a) (of_Z b)) = (b <? a).
Proof.
  unfold sub, neg, add, of_Z, ltb, Qltb.
  destruct (Z.ltb_spec b a) as [H|H].
  - apply negb_true_iff. destruct (Qle_bool _ _) eqn:E; [|reflexivity].
    apply Qle_bool_iff in E. rewrite !Qred_correct in E.
    unfold Qle, Qplus, Qopp, inject_Z in E. simpl in E. lia.
  - apply negb_false_iff. apply Qle_bool_iff. rewrite !Qred_correct.
    unfold Qle, Qplus, Qopp, inject_Z. simpl. lia.
Qed.

Lemma getTime_ltb_inv d1 d2 :
  ltb (getTime d1) (getTime d2) = true ->
  exists t1 t2, d1 = TimeValue t1 /\ d2 = TimeValue t2 /\ t1 < t2.
Proof.
  destruct d1 as [|t1], d2 as [|t2]; cbn [getTime];
    try (unfold of_Z; simpl; discriminate).
  rewrite ltb_of_Z. intros H. exists t1, t2. repeat split. lia.
Qed.

(* ===================================================================== *)
(** ** [parseCommit] and [_parse] *)
(* ===================================================================== *)

Lemma Qred_inject_Z z : Qred (inject_Z z) = inject_Z z.
Proof.
  unfold Qred, inject_Z.
  pose proof (Z.ggcd_gcd z 1) as Hg. pose proof (Z.ggcd_correct_divisors z 1) as Hd.
  destruct (Z.ggcd z 1) as [g [aa bb]]. cbn [fst snd] in *.
  rewrite Z.gcd_1_r in Hg. subst g. destruct Hd as [Ha Hb].
  rewrite Z.mul_1_l in Ha, Hb. subst aa bb. reflexivity.
Qed.

Lemma add_of_Z a b : add (of_Z a) (of_Z b) = of_Z (a + b).
Proof.
  unfold add, of_Z. f_equal. rewrite <- (Qred_inject_Z (a + b)).
  apply Qred_complete. now rewrite inject_Z_plus.
Qed.

Lemma digit_not_sign_nor_space c s :
  is_digit c = true ->
  drop_space (String c s) = String c s /\ take_sign (String c s) = (false, String c s).
Proof.
  destruct c as [[] [] [] [] [] [] [] []]; intros H; try discriminate H; split; reflexivity.
Qed.

Lemma take_digits_digits s ds rest :
  take_digits s = (ds, rest) ->
  take_digits ds = (ds, EmptyString)
  /\ (ds <> EmptyString -> exists c ds', ds = String c ds' /\ is_digit c = true).
Proof.
  revert ds rest. induction s as [|c s IH]; intros ds rest; cbn [take_digits].
  - intros [= <- <-]. split; [reflexivity|congruence].
  - destruct (is_digit c) eqn:Ec.
    + destruct (take_digits s) as [ds0 rest0]. intros [= <- <-].
      destruct (IH ds0 rest0 eq_refl) as [Hd _]. split.
      * cbn [take_digits]. now rewrite Ec, Hd.
      * intros _. now exists c, ds0.
    + intros [= <- <-]. split; [reflexivity|congruence].
Qed.

Lemma parseInt_str_digits s ds rest :
  take_digits s = (ds, rest) -> ds <> EmptyString ->
  parseInt_str ds = of_Z (digits_val 0 ds).
Proof.
  intros H Hne. apply take_digits_digits in H as [Hd Hc].
  destruct (Hc Hne) as (c & ds' & -> & Hdigit).
  unfold parseInt_str.
  destruct (digit_not_sign_nor_space c ds' Hdigit) as [-> ->].
  now rewrite Hd.
Qed.

Lemma parseInt_count_exec word s :
  parseInt_count (exec_count word s)
  = of_Z (match exec_count word s with Some ds => digits_val 0 ds | None => 0 end).
Proof.
  induction s as [|c s IH].
  - reflexivity.
  - cbn [exec_count]. unfold match_count_at.
    destruct (take_digits (String c s)) as [ds rest] eqn:E.
    destruct ds as [|d ds]; [exact IH|].
    destruct (String.prefix _ rest); [|exact IH].
    cbn [parseInt_count]. eapply parseInt_str_digits; [exact E|discriminate].
Qed.

(** [parseCommit] fails exactly on an invalid date; otherwise the lines
    are the two counts of the stats line, absent counts being [0]. *)
Lemma parseCommit_inv gitFolder block :
  match parseCommit gitFolder block with
  | Return c =>
      date c = blockDate block
      /\ (exists t, blockDate block = TimeValue t)
      /\ lines c = of_Z (countOf "insertions" (statsLine block)
                         + countOf "deletions" (statsLine block))
  | Throw _ => blockDate block = InvalidDate
  | Exit _ => False
  end.
Proof.
  unfold parseCommit, blockDate, epochField, statsLine, countOf.
  destruct (split_first newline block) as [description rest]. cbn [fst snd].
  destruct (split_first ";" description) as [fh fields]. cbn [snd].
  destruct (new_Date _) as [|t]; cbn [toISOString bind]; [reflexivity|].
  cbn [date lines]. split; [reflexivity|]. split; [now exists t|].
  rewrite !parseInt_count_exec. apply add_of_Z.
Qed.

Lemma digits_val_nonneg ds acc :
  take_digits ds = (ds, EmptyString) -> 0 <= acc -> 0 <= digits_val acc ds.
Proof.
  revert acc. induction ds as [|c ds IH]; intros acc Hd H; cbn [digits_val]; [exact H|].
  cbn [take_digits] in Hd. destruct (is_digit c) eqn:Ec; [|discriminate].
  destruct (take_digits ds) as [d r]. injection Hd as -> ->.
  apply IH; [reflexivity|]. unfold digit_val.
  unfold is_digit in Ec. apply andb_true_iff in Ec as [Ec _].
  apply N.leb_le in Ec. lia.
Qed.

Lemma exec_count_digits word s ds :
  exec_count word s = Some ds -> take_digits ds = (ds, EmptyString).
Proof.
  induction s as [|c s IH].
  - discriminate.
  - cbn [exec_count]. unfold match_count_at.
    destruct (take_digits (String c s)) as [ds0 rest] eqn:E.
    destruct ds0 as [|d ds0]; [exact IH|].
    destruct (String.prefix _ rest); [|exact IH].
    intros [= <-]. now apply take_digits_digits in E as [E _].
Qed.

Lemma countOf_nonneg word stats : 0 <= countOf word stats.
Proof.
  unfold countOf. destruct (exec_count word (ToString_opt stats)) as [ds|] eqn:E; [|lia].
  apply digits_val_nonneg; [|lia]. now apply exec_count_digits in E.
Qed.

Lemma parseCommit_fresh gitFolder commit :
  match parseCommit gitFolder commit with
  | Return c => fresh c
  | Throw _ => True
  | Exit _ => False
  end.
Proof.
  pose proof (parseCommit_inv gitFolder commit) as Hinv. revert Hinv.
  unfold parseCommit.
  destruct (split_first newline commit) as [description rest].
  destruct (split_first ";" description) as [fh fields].
  destruct (new_Date _) as [|t]; cbn [toISOString bind]; [intros _; exact I|].
  intros (_ & _ & Hl). split; [reflexivity|]. split; [now exists t|].
  eexists. split; [|exact Hl].
  apply Z.add_nonneg_nonneg; apply countOf_nonneg.
Qed.

Lemma mapM_fresh gitFolder l : returns_all fresh (mapM (parseCommit gitFolder) l).
Proof.
  induction l as [|x l IH]; simpl; [constructor|].
  pose proof (parseCommit_fresh gitFolder x) as Hx.
  destruct (parseCommit gitFolder x) as [c| |]; simpl; try exact Hx.
  destruct (mapM _ l) as [cs| |]; simpl in *; try exact IH.
  now constructor.
Qed.

Lemma parseAll_fresh rawCommits : returns_all fresh (parseAll rawCommits).
Proof.
  unfold parseAll.
  assert (H : returns_all fresh (Return [])) by constructor.
  revert H. generalize (Return (@nil Commit)).
  induction rawCommits as [|r raw IH]; intros o Ho; simpl; [exact Ho|].
  apply IH. destruct o as [acc| |]; simpl in *; try exact Ho.
  pose proof (mapM_fresh (Raw.gitFolder r) (Raw.commits r)) as Hm.
  destruct (mapM _ _) as [cs| |]; simpl in *; try exact Hm.
  apply Forall_app. now split.
Qed.

Lemma sort_insert_perm cmp x l : sort_insert cmp x l ≡ₚ x :: l.
Proof.
  induction l as [|y l IH]; cbn [sort_insert]; [reflexivity|].
  destruct (ltb _ _); [|reflexivity].
  rewrite IH. apply Permutation_swap.
Qed.

Lemma sort_perm cmp l : sort cmp l ≡ₚ l.
Proof.
  induction l as [|x l IH]; simpl; [reflexivity|].
  rewrite sort_insert_perm. now rewrite IH.
Qed.

Lemma compareDates_valid x y :
  has_valid_date x -> has_valid_date y ->
  ltb (of_Z 0) (compareDates x y) = (timeValueOf y <? timeValueOf x).
Proof.
  intros [tx Hx] [ty Hy]. unfold compareDates, timeValueOf.
  rewrite Hx, Hy. cbn [getTime]. apply compare_of_Z.
Qed.

Lemma sort_insert_ascending x l :
  has_valid_date x -> Forall has_valid_date l -> ascending l ->
  ascending (sort_insert compareDates x l).
Proof.
  intros Hx Hl Hs. induction Hs as [|y l Hs IH Hy]; cbn [sort_insert].
  - repeat constructor.
  - apply Forall_cons in Hl as [Hvy Hl].
    rewrite (compareDates_valid x y Hx Hvy).
    destruct (Z.ltb_spec (timeValueOf y) (timeValueOf x)) as [Hlt|Hge].
    + constructor; [now apply IH|].
      rewrite sort_insert_perm. constructor; [lia|exact Hy].
    + constructor; [now constructor|].
      constructor; [exact Hge|].
      eapply Forall_impl; [exact Hy|]. simpl. intros z Hz. lia.
Qed.

Lemma sort_ascending l : Forall has_valid_date l -> ascending (sort compareDates l).
Proof.
  induction l as [|x l IH]; intros H; simpl; [constructor|].
  apply Forall_cons in H as [Hx Hl].
  apply sort_insert_ascending; [exact Hx| |now apply IH].
  now rewrite sort_perm.
Qed.

(** What [_parse] returns: the commits of [parseAll] that are in the
    window, sorted; [_parse] never ends the process. *)
Lemma parse_inv rawCommits settings :
  match _parse rawCommits settings with
  | Return cs =>
      exists all, parseAll rawCommits = Return all
        /\ cs = sort compareDates (List.filter (in_window settings) all)
        /\ Forall fresh cs
  | Throw e => parseAll rawCommits = Throw e
  | Exit _ => False
  end.
Proof.
  unfold _parse. pose proof (parseAll_fresh rawCommits) as H.
  destruct (parseAll rawCommits) as [all| |]; simpl in *; [|reflexivity|exact H].
  exists all. repeat split. rewrite sort_perm.
  apply Forall_forall. intros c Hc%list_elem_of_In%filter_In.
  destruct Hc as [Hc _]. rewrite Forall_forall in H. apply H.
  now apply list_elem_of_In.
Qed.

Lemma parse_fresh rawCommits settings cs :
  _parse rawCommits settings = Return cs -> Forall fresh cs.
Proof.
  intros H. pose proof (parse_inv rawCommits settings) as Hi.
  rewrite H in Hi. now destruct Hi as (all & _ & _ & Hf).
Qed.

Lemma fresh_parsedFields (cs : list Commit) : Forall fresh cs -> parsedFields <$> cs = cs.
Proof.
  induction 1 as [|c cs [Hc _] _ IH]; [reflexivity|].
  rewrite fmap_cons, IH. now f_equal.
Qed.

Lemma parse_ascending rawCommits settings cs :
  _parse rawCommits settings = Return cs -> ascending cs.
Proof.
  intros H. pose proof (parse_inv rawCommits settings) as Hi.
  rewrite H in Hi. destruct Hi as (all & Hall & -> & _).
  apply sort_ascending. pose proof (parseAll_fresh rawCommits) as Hf.
  rewrite Hall in Hf. simpl in Hf.
  apply Forall_forall. intros c Hc%list_elem_of_In%filter_In.
  destruct Hc as [Hc _]. rewrite Forall_forall in Hf.
  apply list_elem_of_In in Hc. now destruct (Hf c Hc) as (_ & Hd & _).
Qed.

Lemma calculation_inv rawCommits settings timeCalculationMethod :
  match _calculation rawCommits settings timeCalculationMethod with
  | Return r =>
      exists parsed, _parse rawCommits settings = Return parsed /\ parsed <> []
        /\ (commits r, commitsLengthMap r)
           = calculation_loop timeCalculationMethod (seq 0 (length parsed)) parsed
  | Throw e => _parse rawCommits settings = Throw e
  | Exit code => code = 0 /\ _parse rawCommits settings = Return []
  end.
Proof.
  unfold _calculation. pose proof (parse_inv rawCommits settings) as Hp.
  destruct (_parse rawCommits settings) as [parsed| |]; simpl; [|reflexivity|destruct Hp].
  pose proof (calculation_loop_length timeCalculationMethod (seq 0 (length parsed)) parsed) as Hlen.
  destruct (calculation_loop _ _ parsed) as [cs m] eqn:E. simpl in Hlen.
  destruct (Nat.eqb_spec (length cs) 0) as [H0|Hn].
  - split; [reflexivity|]. destruct parsed; [reflexivity|simpl in Hlen; lia].
  - exists parsed. split; [reflexivity|]. split; [|now rewrite E].
    intros ->. simpl in Hlen. lia.
Qed.

(* ===================================================================== *)
(** ** The per-day pass of the equal method *)
(* ===================================================================== *)

Section EqualDay.

Variable settings : Settings.

Lemma forEach_alter_lookup_notin f members (cs : list Commit) i :
  i ∉ members -> forEach_alter f members cs !! i = cs !! i.
Proof.
  unfold forEach_alter. revert cs.
  induction members as [|j members IH]; intros cs Hi; simpl; [reflexivity|].
  apply not_elem_of_cons in Hi as [Hne Hi].
  rewrite IH by exact Hi. apply list_lookup_alter_ne. congruence.
Qed.

Lemma forEach_alter_lookup_in f members (cs : list Commit) i :
  NoDup members -> i ∈ members -> forEach_alter f members cs !! i = f <$> cs !! i.
Proof.
  unfold forEach_alter. revert cs.
  induction members as [|j members IH]; intros cs Hnd Hi; simpl; [inversion Hi|].
  apply NoDup_cons in Hnd as [Hj Hnd].
  apply elem_of_cons in Hi as [->|Hi].
  - fold (forEach_alter f members (alter f j cs)).
    rewrite forEach_alter_lookup_notin by exact Hj. apply list_lookup_alter_eq.
  - rewrite IH by assumption. rewrite list_lookup_alter_ne; [reflexivity|].
    intros ->. contradiction.
Qed.

Lemma clamp_step_commits cs k i :
  (clamp_step settings (cs, k) i).1 = alter (clampCommit settings) i cs.
Proof.
  unfold clamp_step. destruct (cs !! i) as [c|] eqn:E; simpl.
  - destruct (ltb (time_of c) (minCommitTime settings)) eqn:El; simpl.
    + apply list_alter_ext; [|reflexivity]. intros x Hx.
      rewrite E in Hx. injection Hx as <-. unfold clampCommit. now rewrite El.
    + symmetry. apply list_eq. intros j. rewrite list_lookup_alter.
      destruct (decide (i = j)) as [<-|]; [|reflexivity].
      rewrite E. simpl. unfold clampCommit. now rewrite El.
  - symmetry. now apply alter_absent.
Qed.

Lemma clamp_fold_commits members cs k :
  (fold_left (clamp_step settings) members (cs, k)).1
  = forEach_alter (clampCommit settings) members cs.
Proof.
  unfold forEach_alter. revert cs k.
  induction members as [|i members IH]; intros cs k; cbn [fold_left]; [reflexivity|].
  pose proof (clamp_step_commits cs k i) as H.
  destruct (clamp_step settings (cs, k) i) as [cs' k']. simpl in H. subst cs'.
  apply IH.
Qed.

(** The body of the loop over the days as three passes over the commits
    of the day. *)
Lemma equalDay_passes cs members :
  exists k,
    equalDay settings cs members
    = forEach_alter (round_commit settings) members
        ((if (k =? 0)%nat then (fun st => st)
          else forEach_alter (rescale_commit settings (newMaxHoursPerDayOf settings k)) members)
           (forEach_alter (clampCommit settings) members cs)).
Proof.
  unfold equalDay. pose proof (clamp_fold_commits members cs O) as H.
  destruct (fold_left (clamp_step settings) members (cs, O)) as [cs1 k].
  simpl in H. subst cs1. exists k.
  unfold newMaxHoursPerDayOf. destruct (k =? 0)%nat; reflexivity.
Qed.

Lemma parsedFields_clampCommit c : parsedFields (clampCommit settings c) = parsedFields c.
Proof. unfold clampCommit. now destruct (ltb _ _). Qed.

Lemma parsedFields_rescale_commit b c :
  parsedFields (rescale_commit settings b c) = parsedFields c.
Proof. unfold rescale_commit. now destruct (negb _). Qed.

Lemma parsedFields_round_commit c : parsedFields (round_commit settings c) = parsedFields c.
Proof. reflexivity. Qed.

Lemma parsedFields_equalDay cs members :
  parsedFields <$> equalDay settings cs members = parsedFields <$> cs.
Proof.
  destruct (equalDay_passes cs members) as [k ->].
  rewrite parsedFields_forEach_alter by apply parsedFields_round_commit.
  destruct (k =? 0)%nat.
  - apply parsedFields_forEach_alter, parsedFields_clampCommit.
  - rewrite parsedFields_forEach_alter by apply parsedFields_rescale_commit.
    apply parsedFields_forEach_alter, parsedFields_clampCommit.
Qed.

Lemma parsedFields_equalDays (groups : list (string * list nat)) cs :
  parsedFields <$> fold_left (fun st group => equalDay settings st (snd group)) groups cs
  = parsedFields <$> cs.
Proof.
  revert cs. induction groups as [|g groups IH]; intros cs; simpl; [reflexivity|].
  rewrite IH. apply parsedFields_equalDay.
Qed.

Lemma has_time_alter f i (cs : list Commit) :
  (forall c, has_time c -> has_time (f c)) ->
  Forall has_time cs -> Forall has_time (alter f i cs).
Proof.
  intros Hf H. revert i. induction H as [|c cs Hc H IH]; intros [|i];
    try constructor; try apply Hf; try apply IH; assumption.
Qed.

Lemma has_time_forEach_alter f members (cs : list Commit) :
  (forall c, has_time c -> has_time (f c)) ->
  Forall has_time cs -> Forall has_time (forEach_alter f members cs).
Proof.
  intros Hf. unfold forEach_alter. revert cs.
  induction members as [|i members IH]; intros cs H; simpl; [exact H|].
  apply IH. now apply has_time_alter.
Qed.

Lemma has_time_equalDay cs members :
  Forall has_time cs -> Forall has_time (equalDay settings cs members).
Proof.
  intros H. destruct (equalDay_passes cs members) as [k ->].
  apply has_time_forEach_alter; [intros c _; discriminate|].
  assert (H1 : Forall has_time (forEach_alter (clampCommit settings) members cs)).
  { apply has_time_forEach_alter; [|exact H].
    intros c Hc. unfold clampCommit. destruct (ltb _ _); [discriminate|exact Hc]. }
  destruct (k =? 0)%nat; [exact H1|].
  apply has_time_forEach_alter; [|exact H1].
  intros c Hc. unfold rescale_commit. destruct (negb _); [discriminate|exact Hc].
Qed.

Lemma has_time_equalDays (groups : list (string * list nat)) cs :
  Forall has_time cs ->
  Forall has_time (fold_left (fun st group => equalDay settings st (snd group)) groups cs).
Proof.
  revert cs. induction groups as [|g groups IH]; intros cs H; simpl; [exact H|].
  apply IH. now apply has_time_equalDay.
Qed.

(** A day does not touch the commits of the other days. *)
Lemma equalDay_lookup_notin cs members i :
  i ∉ members -> equalDay settings cs members !! i = cs !! i.
Proof.
  intros Hi. destruct (equalDay_passes cs members) as [k ->].
  rewrite forEach_alter_lookup_notin by exact Hi.
  destruct (k =? 0)%nat; [|rewrite forEach_alter_lookup_notin by exact Hi];
    now apply forEach_alter_lookup_notin.
Qed.

(** A commit of the day whose time is below [minCommitTime] leaves the day
    with [minCommitTime] rounded twice, and flagged. *)
Lemma equalDay_lookup_clamped cs members i c :
  NoDup members -> i ∈ members -> cs !! i = Some c ->
  ltb (time_of c) (minCommitTime settings) = true ->
  equalDay settings cs members !! i
  = Some (round_commit settings
            (set_isMinCommitTime (set_time (minCommitTime settings) c))).
Proof.
  intros Hnd Hi Hc Hlt. destruct (equalDay_passes cs members) as [k ->].
  rewrite forEach_alter_lookup_in by assumption.
  assert (H1 : forEach_alter (clampCommit settings) members cs !! i
               = Some (set_isMinCommitTime (set_time (minCommitTime settings) c))).
  { rewrite forEach_alter_lookup_in by assumption. rewrite Hc. simpl.
    unfold clampCommit. now rewrite Hlt. }
  destruct (k =? 0)%nat; [now rewrite H1|].
  rewrite forEach_alter_lookup_in by assumption. rewrite H1. reflexivity.
Qed.

Lemma equalDays_lookup_notin (groups : list (string * list nat)) cs i :
  i ∉ concat (snd <$> groups) ->
  fold_left (fun st group => equalDay settings st (snd group)) groups cs !! i = cs !! i.
Proof.
  revert cs. induction groups as [|g groups IH]; intros cs Hi; simpl; [reflexivity|].
  rewrite fmap_cons in Hi. simpl in Hi. apply not_elem_of_app in Hi as [Hg Hi].
  rewrite IH by exact Hi. now apply equalDay_lookup_notin.
Qed.

Lemma equalDays_lookup_clamped (groups : list (string * list nat)) cs i c :
  NoDup (concat (snd <$> groups)) -> i ∈ concat (snd <$> groups) ->
  cs !! i = Some c -> ltb (time_of c) (minCommitTime settings) = true ->
  fold_left (fun st group => equalDay settings st (snd group)) groups cs !! i
  = Some (round_commit settings
            (set_isMinCommitTime (set_time (minCommitTime settings) c))).
Proof.
  revert cs. induction groups as [|g groups IH]; intros cs Hnd Hi Hc Hlt; simpl.
  - inversion Hi.
  - rewrite fmap_cons in Hnd, Hi. simpl in Hnd, Hi.
    apply NoDup_app in Hnd as (Hg & Hdisj & Hrest).
    destruct (decide (i ∈ snd g)) as [Hin|Hnin].
    + rewrite equalDays_lookup_notin by (now apply Hdisj).
      now apply equalDay_lookup_clamped.
    + apply elem_of_app in Hi as [Hi|Hi]; [contradiction|].
      apply IH; try assumption. now rewrite equalDay_lookup_notin.
Qed.

End EqualDay.

(** *** [_.groupBy] puts every element in exactly one group *)

Lemma group_insert_members k i gs :
  concat (snd <$> Lodash.group_insert k i gs) ≡ₚ i :: concat (snd <$> gs).
Proof.
  induction gs as [|[k' members] gs IH]; cbn [Lodash.group_insert]; [reflexivity|].
  destruct (String.eqb k k'); rewrite !fmap_cons; cbn [snd concat].
  - rewrite <- app_assoc. symmetry. apply Permutation_middle.
  - rewrite IH. symmetry. apply Permutation_middle.
Qed.

Lemma groupBy_members {A : Type} (key : A -> string) (l : list A) :
  concat (snd <$> Lodash.groupBy key l) ≡ₚ seq 0 (length l).
Proof.
  unfold Lodash.groupBy.
  assert (H : forall (ps : list (nat * A)) gs,
             concat (snd <$> fold_left
                       (fun gs ix => Lodash.group_insert (key (snd ix)) (fst ix) gs) ps gs)
             ≡ₚ concat (snd <$> gs) ++ (fst <$> ps)).
  { induction ps as [|[i x] ps IH]; intros gs; cbn [fold_left].
    - now rewrite app_nil_r.
    - rewrite IH, group_insert_members, fmap_cons. cbn [fst snd].
      rewrite <- app_comm_cons. apply Permutation_middle. }
  rewrite H. cbn [fmap list_fmap concat app].
  assert (Hfst : forall (l : list A) n, fst <$> combine (seq n (length l)) l = seq n (length l)).
  { clear. induction l as [|x l IH]; intros n; simpl; [reflexivity|]. now rewrite IH. }
  now rewrite Hfst.
Qed.

(* ===================================================================== *)
(** ** What the calculation returns *)
(* ===================================================================== *)

Lemma calculation_loop_all timeCalculationMethod order parsed :
  order ≡ₚ seq 0 (length parsed) ->
  (calculation_loop timeCalculationMethod order parsed).1
  = timed timeCalculationMethod parsed <$> parsed.
Proof.
  intros Hperm. apply list_eq. intros i.
  rewrite calculation_loop_lookup, list_lookup_fmap.
  destruct (decide (i ∈ order)) as [|Hnin]; [reflexivity|].
  assert (Hge : (length parsed <= i)%nat).
  { destruct (Nat.le_gt_cases (length parsed) i) as [|Hlt]; [assumption|].
    exfalso. apply Hnin. rewrite Hperm. apply elem_of_seq. lia. }
  now rewrite (lookup_ge_None_2 parsed i Hge).
Qed.

Lemma calculation_commits rawCommits settings timeCalculationMethod r :
  _calculation rawCommits settings timeCalculationMethod = Return r ->
  exists parsed, _parse rawCommits settings = Return parsed /\ parsed <> []
    /\ commits r = timed timeCalculationMethod parsed <$> parsed
    /\ commitsLengthMap r
       = (calculation_loop timeCalculationMethod (seq 0 (length parsed)) parsed).2.
Proof.
  intros H. pose proof (calculation_inv rawCommits settings timeCalculationMethod) as Hi.
  rewrite H in Hi. destruct Hi as (parsed & Hp & Hne & Hloop).
  exists parsed. split; [exact Hp|]. split; [exact Hne|].
  rewrite <- (calculation_loop_all timeCalculationMethod (seq 0 (length parsed)) parsed)
    by reflexivity.
  rewrite <- Hloop. split; reflexivity.
Qed.

Lemma parsedFields_timed_all timeCalculationMethod (cs parsed : list Commit) :
  parsedFields <$> (timed timeCalculationMethod cs <$> parsed) = parsedFields <$> parsed.
Proof. rewrite <- list_fmap_compose. reflexivity. Qed.

Lemma equalCalculation_inv rawCommits settings r :
  equalCalculation rawCommits settings = Return r ->
  exists calculation,
    _calculation rawCommits settings (equalTime settings) = Return calculation
    /\ commits r
       = fold_left (fun cs group => equalDay settings cs (snd group))
                   (Lodash.groupBy shortDate (commits calculation)) (commits calculation)
    /\ commitsLengthMap r = commitsLengthMap calculation.
Proof.
  unfold equalCalculation.
  destruct (_calculation rawCommits settings (equalTime settings)) as [calculation| |];
    simpl; try discriminate.
  intros [= <-]. exists calculation. repeat split.
Qed.

(* ===================================================================== *)
(** ** A run on two commits of one day *)
(* ===================================================================== *)

(** The example of the specification: 10 and 90 lines on one day give
    0.75 and 7 hours with the standard method, 0.8 and 7.2 hours with the
    equal method. *)
Example example_parse :
  _parse exampleLog exampleSettings = Return [exampleFirst; exampleSecond].
Proof. vm_compute. reflexivity. Qed.

Example example_standard :
  standardCalculation exampleLog exampleSettings = Return exampleStandard.
Proof. vm_compute. reflexivity. Qed.

Example example_equal :
  commits <$> (match equalCalculation exampleLog exampleSettings with
               | Return r => Some r
               | _ => None
               end)
  = Some [set_time (Fin (4 # 5)) exampleFirst; set_time (Fin (36 # 5)) exampleSecond].
Proof. vm_compute. reflexivity. Qed.

(* ===================================================================== *)
(** ** The window of [_parse] *)
(* ===================================================================== *)

(** C6. Every commit that [_parse] returns lies strictly inside the time
    window: the window has valid bounds and [startTime < date < endTime],
    so no commit with [date <= startTime] or [date >= endTime] is returned. *)
Theorem parse_window_exclusive rawCommits settings cs c :
  _parse rawCommits settings = Return cs -> In c cs ->
  exists s d e,
    startTime settings = TimeValue s /\ date c = TimeValue d
    /\ endTime settings = TimeValue e /\ s < d < e.
Proof.
  intros H Hc. pose proof (parse_inv rawCommits settings) as Hi.
  rewrite H in Hi. destruct Hi as (all & _ & -> & _).
  apply list_elem_of_In in Hc. rewrite sort_perm in Hc.
  apply list_elem_of_In, filter_In in Hc as [_ Hw].
  unfold in_window in Hw. apply andb_true_iff in Hw as [Hs He].
  apply getTime_ltb_inv in Hs as (s & d & Hs & Hd & Hsd).
  apply getTime_ltb_inv in He as (d' & e & Hd' & He & Hde).
  rewrite Hd in Hd'. injection Hd' as <-.
  exists s, d, e. repeat split; assumption.
Qed.

Lemma parse_window_exclusive_witness :
  _parse exampleLog exampleSettings = Return [exampleFirst; exampleSecond]
  /\ In exampleFirst [exampleFirst; exampleSecond]
  /\ exists s d e,
       startTime exampleSettings = TimeValue s /\ date exampleFirst = TimeValue d
       /\ endTime exampleSettings = TimeValue e /\ s < d < e.
Proof.
  split; [vm_compute; reflexivity|]. split; [left; reflexivity|].
  apply (parse_window_exclusive exampleLog exampleSettings [exampleFirst; exampleSecond]).
  - vm_compute; reflexivity.
  - left; reflexivity.
Defined.

(* ===================================================================== *)
(** ** No commits found *)
(* ===================================================================== *)

(** C5. [_calculation] ends the process, with exit code 0, exactly when
    [_parse] returns the empty list; when [_parse] returns a list that is
    not empty, [_calculation] returns the commits and [commitsLengthMap],
    and neither throws nor ends the process.  The equal method ends the
    process in the same case. *)
Theorem calculation_no_commits_found rawCommits settings timeCalculationMethod :
  (forall code,
      _calculation rawCommits settings timeCalculationMethod = Exit code
      <-> code = 0 /\ _parse rawCommits settings = Return [])
  /\ (forall code,
      equalCalculation rawCommits settings = Exit code
      <-> code = 0 /\ _parse rawCommits settings = Return [])
  /\ (forall parsed,
      _parse rawCommits settings = Return parsed -> parsed <> [] ->
      exists r, _calculation rawCommits settings timeCalculationMethod = Return r
                /\ length (commits r) = length parsed).
Proof.
  assert (Hexit : forall method code,
             _calculation rawCommits settings method = Exit code
             <-> code = 0 /\ _parse rawCommits settings = Return []).
  { intros method code. split.
    - intros H. pose proof (calculation_inv rawCommits settings method) as Hi.
      now rewrite H in Hi.
    - intros [-> H]. unfold _calculation. rewrite H. reflexivity. }
  split; [apply Hexit|]. split.
  - intros code. rewrite <- (Hexit (equalTime settings)). unfold equalCalculation.
    destruct (_calculation rawCommits settings (equalTime settings)); simpl;
      split; intros H; try discriminate; exact H.
  - intros parsed Hp Hne.
    pose proof (calculation_inv rawCommits settings timeCalculationMethod) as Hi.
    destruct (_calculation rawCommits settings timeCalculationMethod) as [r|e|code].
    + exists r. split; [reflexivity|].
      destruct Hi as (parsed' & Hp' & _ & Hloop). rewrite Hp in Hp'. injection Hp' as <-.
      pose proof (calculation_loop_length timeCalculationMethod
                    (seq 0 (length parsed)) parsed) as Hlen.
      rewrite <- Hloop in Hlen. exact Hlen.
    + rewrite Hp in Hi. discriminate.
    + destruct Hi as [_ Hi]. rewrite Hp in Hi. injection Hi as ->. contradiction.
Qed.

Lemma calculation_no_commits_found_witness :
  _calculation [] exampleSettings (standardTime exampleSettings) = Exit 0
  /\ exists r, _calculation exampleLog exampleSettings (standardTime exampleSettings) = Return r
               /\ length (commits r) = length [exampleFirst; exampleSecond].
Proof.
  destruct (calculation_no_commits_found [] exampleSettings (standardTime exampleSettings))
    as [H _].
  destruct (calculation_no_commits_found exampleLog exampleSettings
              (standardTime exampleSettings)) as (_ & _ & H').
  split.
  - apply H. split; reflexivity.
  - apply H'; [vm_compute; reflexivity|discriminate].
Defined.

(* ===================================================================== *)
(** ** [commitsLengthMap] *)
(* ===================================================================== *)

(** C8. In what [_calculation] returns, the entry of [commitsLengthMap] for
    the day of each commit is the number of returned commits of that day;
    and the map is the same in whatever order the loop visits the commits. *)
Theorem commitsLengthMap_counts rawCommits settings timeCalculationMethod r :
  _calculation rawCommits settings timeCalculationMethod = Return r ->
  (forall c, In c (commits r) ->
     commitsLengthMap r !! shortDate c = Some (dayCount (shortDate c) (commits r)))
  /\ (forall parsed order,
        _parse rawCommits settings = Return parsed ->
        order ≡ₚ seq 0 (length parsed) ->
        (calculation_loop timeCalculationMethod order parsed).2 = commitsLengthMap r).
Proof.
  intros H. apply calculation_commits in H as (parsed & Hp & _ & Hcs & Hm).
  assert (Hpf : parsedFields <$> commits r = parsedFields <$> parsed).
  { rewrite Hcs. apply parsedFields_timed_all. }
  split.
  - intros c Hc. apply list_elem_of_In in Hc. rewrite Hcs in Hc.
    apply list_elem_of_fmap in Hc as (c0 & -> & Hc0).
    apply list_elem_of_lookup in Hc0 as [i Hi].
    rewrite Hm. apply calculation_loop_map. split.
    + now destruct (day_bucket_parsedFields (shortDate (timed timeCalculationMethod parsed c0))
                      _ _ Hpf) as [-> _].
    + exists i, c0. split; [|split; [exact Hi|reflexivity]].
      apply elem_of_seq. apply lookup_lt_Some in Hi. lia.
  - intros parsed' order Hp' Hperm. rewrite Hp in Hp'. injection Hp' as <-.
    rewrite Hm. apply map_eq. intros sd. apply option_eq. intros n.
    rewrite !calculation_loop_map. split; intros [-> (i & c & Hi & Hc)];
      (split; [reflexivity|]); exists i, c; (split; [|exact Hc]).
    + now rewrite <- Hperm.
    + now rewrite Hperm.
Qed.

Lemma commitsLengthMap_counts_witness :
  _calculation exampleLog exampleSettings (standardTime exampleSettings)
  = Return exampleStandard
  /\ commitsLengthMap exampleStandard !! "2021-03-04"%string = Some 2%nat.
Proof.
  assert (H : _calculation exampleLog exampleSettings (standardTime exampleSettings)
              = Return exampleStandard) by (vm_compute; reflexivity).
  split; [exact H|].
  destruct (commitsLengthMap_counts exampleLog exampleSettings (standardTime exampleSettings)
              exampleStandard H) as [Hcount _].
  apply (Hcount (set_time (Fin (3 # 4)) exampleFirst)). left. reflexivity.
Defined.

(* ===================================================================== *)
(** ** The calculation only adds the time *)
(* ===================================================================== *)

(** C10. Both methods return the commits of [_parse], in the same order,
    ascending by date, and with the parsed fields unchanged: removing
    [time] and [isMinCommitTime] from the returned commits gives back the
    list of [_parse].  Every returned commit has a time, and the standard
    method sets no flag. *)
Theorem calculation_keeps_parsed_commits rawCommits settings r :
  standardCalculation rawCommits settings = Return r
  \/ equalCalculation rawCommits settings = Return r ->
  exists parsed,
    _parse rawCommits settings = Return parsed
    /\ ascending parsed
    /\ parsedFields <$> commits r = parsed
    /\ Forall has_time (commits r)
    /\ (standardCalculation rawCommits settings = Return r ->
        Forall (fun c => isMinCommitTime c = false) (commits r)).
Proof.
  assert (Hcalc : forall method calculation,
             _calculation rawCommits settings method = Return calculation ->
             exists parsed,
               _parse rawCommits settings = Return parsed
               /\ ascending parsed
               /\ parsedFields <$> commits calculation = parsed
               /\ Forall has_time (commits calculation)
               /\ Forall (fun c => isMinCommitTime c = false) (commits calculation)).
  { intros method calculation H.
    apply calculation_commits in H as (parsed & Hp & _ & Hcs & _).
    exists parsed. split; [exact Hp|]. split; [now apply parse_ascending in Hp|].
    pose proof (parse_fresh _ _ _ Hp) as Hf. rewrite Hcs. repeat split.
    - rewrite parsedFields_timed_all. now apply fresh_parsedFields.
    - apply Forall_fmap, Forall_forall. intros c _. discriminate.
    - apply Forall_fmap. eapply Forall_impl; [exact Hf|].
      intros c [Hc _]. simpl. now rewrite <- Hc. }
  intros [H|H].
  - destruct (Hcalc _ _ H) as (parsed & Hp & Ha & Hpf & Ht & Hflag).
    exists parsed. repeat split; auto.
  - apply equalCalculation_inv in H as (calculation & Hc & Hcs & _).
    destruct (Hcalc _ _ Hc) as (parsed & Hp & Ha & Hpf & Ht & _).
    exists parsed. split; [exact Hp|]. split; [exact Ha|]. rewrite Hcs. split.
    + now rewrite parsedFields_equalDays.
    + split; [now apply has_time_equalDays|].
      intros Hstd. destruct (Hcalc _ _ Hstd) as (parsed' & Hp' & _ & Hpf' & _ & Hflag).
      now rewrite <- Hcs.
Qed.

Lemma calculation_keeps_parsed_commits_witness :
  standardCalculation exampleLog exampleSettings = Return exampleStandard
  /\ parsedFields <$> commits exampleStandard = [exampleFirst; exampleSecond].
Proof.
  assert (H : standardCalculation exampleLog exampleSettings = Return exampleStandard)
    by (vm_compute; reflexivity).
  split; [exact H|].
  destruct (calculation_keeps_parsed_commits exampleLog exampleSettings exampleStandard
              (or_introl H)) as (parsed & Hp & _ & Hpf & _).
  assert (Hparse : _parse exampleLog exampleSettings = Return [exampleFirst; exampleSecond])
    by (vm_compute; reflexivity).
  rewrite Hparse in Hp. injection Hp as <-. exact Hpf.
Defined.

(* ===================================================================== *)
(** ** The minimum of the equal method *)
(* ===================================================================== *)

(** C3, as stated, fails: the commit of 2 lines starts below
    [minCommitTime = 0.25] and ends with 0.3 hours, not 0.25, because the
    final rounding to one digit also applies to it. *)
Lemma equal_min_commit_time_not_exact :
  equalCalculation smallCommitLog oneDigitSettings = Return smallCommitResult
  /\ _parse smallCommitLog oneDigitSettings = Return [smallCommit; largeCommit]
  /\ ltb (equalTime oneDigitSettings (ratioOf [smallCommit; largeCommit] smallCommit))
         (minCommitTime oneDigitSettings) = true
  /\ (time <$> commits smallCommitResult !! 0%nat) = Some (Some (Fin (3 # 10)))
  /\ (time <$> commits smallCommitResult !! 0%nat)
     <> Some (Some (minCommitTime oneDigitSettings)).
Proof.
  split; [vm_compute; reflexivity|]. split; [vm_compute; reflexivity|].
  split; [vm_compute; reflexivity|]. split; [reflexivity|]. discriminate.
Qed.

(** C3, amended.  In the equal method, every commit whose first allocation
    [ratio * maxHoursPerDay] is strictly below [minCommitTime] is flagged
    and ends with [minCommitTime] rounded twice, to
    [equalRoundPrecision + 1] and then to [equalRoundPrecision] digits;
    its other fields are those of the parsed commit. *)
Theorem equal_min_commit_time rawCommits settings r parsed i c0 :
  equalCalculation rawCommits settings = Return r ->
  _parse rawCommits settings = Return parsed ->
  parsed !! i = Some c0 ->
  ltb (equalTime settings (ratioOf parsed c0)) (minCommitTime settings) = true ->
  exists c,
    commits r !! i = Some c
    /\ parsedFields c = c0
    /\ time c = Some (roundTwice settings (minCommitTime settings))
    /\ isMinCommitTime c = true.
Proof.
  intros H Hp Hi Hlt.
  apply equalCalculation_inv in H as (calculation & Hc & Hcs & _).
  apply calculation_commits in Hc as (parsed' & Hp' & _ & Hcalc & _).
  rewrite Hp in Hp'. injection Hp' as <-.
  pose proof (parse_fresh _ _ _ Hp) as Hf.
  assert (Hc0 : parsedFields c0 = c0).
  { rewrite Forall_lookup in Hf. now destruct (Hf i c0 Hi). }
  set (c1 := timed (equalTime settings) parsed c0).
  assert (Hi1 : commits calculation !! i = Some c1).
  { rewrite Hcalc, list_lookup_fmap, Hi. reflexivity. }
  pose proof (groupBy_members shortDate (commits calculation)) as Hg.
  exists (round_commit settings (set_isMinCommitTime (set_time (minCommitTime settings) c1))).
  split; [|split; [exact Hc0|split; reflexivity]].
  rewrite Hcs. apply equalDays_lookup_clamped.
  - rewrite Hg. apply NoDup_seq.
  - rewrite Hg. apply elem_of_seq. apply lookup_lt_Some in Hi1. lia.
  - exact Hi1.
  - exact Hlt.
Qed.

Lemma equal_min_commit_time_witness :
  equalCalculation smallCommitLog oneDigitSettings = Return smallCommitResult
  /\ exists c,
       commits smallCommitResult !! 0%nat = Some c
       /\ parsedFields c = smallCommit
       /\ time c = Some (roundTwice oneDigitSettings (minCommitTime oneDigitSettings))
       /\ isMinCommitTime c = true.
Proof.
  assert (H : equalCalculation smallCommitLog oneDigitSettings = Return smallCommitResult)
    by (vm_compute; reflexivity).
  split; [exact H|].
  apply (equal_min_commit_time smallCommitLog oneDigitSettings smallCommitResult
           [smallCommit; largeCommit] 0 smallCommit).
  - exact H.
  - vm_compute; reflexivity.
  - reflexivity.
  - vm_compute; reflexivity.
Defined.

(* ===================================================================== *)
(** ** Blocks with missing fields *)
(* ===================================================================== *)

Lemma mapM_returns gitFolder blocks :
  (exists cs, mapM (parseCommit gitFolder) blocks = Return cs)
  <-> (forall block, In block blocks -> blockDate block <> InvalidDate).
Proof.
  induction blocks as [|b blocks IH]; cbn [mapM].
  - split; [intros _ b []|intros _; now exists []].
  - pose proof (parseCommit_inv gitFolder b) as Hb.
    destruct (parseCommit gitFolder b) as [c|e|code]; cbn [bind].
    + destruct Hb as (_ & [t Ht] & _). split.
      * intros [cs Hcs] b' [<-|Hb']; [now rewrite Ht|].
        destruct (mapM (parseCommit gitFolder) blocks) as [cs'| |]; try discriminate.
        apply IH; [now exists cs'|exact Hb'].
      * intros Hall. destruct IH as [_ IH].
        destruct IH as [cs' ->]; [intros b' Hb'; apply Hall; now right|].
        now eexists.
    + split; [intros [cs Hcs]; discriminate|].
      intros Hall. exfalso. apply (Hall b); [now left|exact Hb].
    + destruct Hb.
Qed.

Lemma parseAll_returns rawCommits :
  (exists all, parseAll rawCommits = Return all)
  <-> (forall report block,
         In report rawCommits -> In block (Raw.commits report) ->
         blockDate block <> InvalidDate).
Proof.
  unfold parseAll.
  assert (H : forall (o : outcome (list Commit)),
             (exists all, fold_left
                 (fun commitArray gitReport =>
                    bind commitArray (fun acc =>
                    bind (mapM (parseCommit (Raw.gitFolder gitReport)) (Raw.commits gitReport))
                         (fun parsed => Return (acc ++ parsed))))
                 rawCommits o = Return all)
             <-> (exists acc, o = Return acc)
                 /\ (forall report block,
                       In report rawCommits -> In block (Raw.commits report) ->
                       blockDate block <> InvalidDate)).
  { induction rawCommits as [|r raw IH]; intros o; cbn [fold_left].
    - split; [intros Ho; split; [exact Ho|intros ? ? []]|intros [Ho _]; exact Ho].
    - rewrite IH. clear IH.
      pose proof (mapM_returns (Raw.gitFolder r) (Raw.commits r)) as Hm.
      destruct o as [acc|e|code]; cbn [bind].
      + destruct (mapM _ (Raw.commits r)) as [cs|e|code]; cbn [bind].
        * destruct Hm as [Hm _]. split.
          -- intros [_ Hrest]. split; [now eexists|].
             intros report block [<-|Hr] Hb; [apply Hm; [now eexists|exact Hb]|].
             now apply (Hrest report).
          -- intros [_ Hall]. split; [now eexists|].
             intros report block Hr. apply Hall. now right.
        * split; [intros [[a Ha] _]; discriminate|].
          intros [_ Hall]. destruct Hm as [_ Hm].
          destruct Hm as [cs Hcs]; [|discriminate].
          intros block. apply Hall. now left.
        * split; [intros [[a Ha] _]; discriminate|].
          intros [_ Hall]. destruct Hm as [_ Hm].
          destruct Hm as [cs Hcs]; [|discriminate].
          intros block. apply Hall. now left.
      + split; intros [[a Ha] _]; discriminate.
      + split; intros [[a Ha] _]; discriminate. }
  rewrite H. split; [intros [_ Hall]; exact Hall|].
  intros Hall. split; [now eexists|exact Hall].
Qed.

(** C9, as stated, fails: a block without the epoch-seconds field does not
    get the date 0; its date is invalid and [_parse] throws. *)
Lemma parse_throws_without_epoch :
  epochField "fb1eb3ead0e20fed1029bea0edd7626964df326b;fb1eb3e" = None
  /\ _parse truncatedLog exampleSettings = Throw RangeError_invalid_time_value
  /\ standardCalculation truncatedLog exampleSettings = Throw RangeError_invalid_time_value
  /\ equalCalculation truncatedLog exampleSettings = Throw RangeError_invalid_time_value.
Proof. repeat split; vm_compute; reflexivity. Qed.

(** C9, amended.  [_parse] returns exactly when the epoch-seconds field of
    every block converts to a valid date.  Such a block is parsed with
    [lines = insertions + deletions], where a count without a match in the
    stats line is [0]; without a stats line both counts are [0].  An empty
    epoch-seconds field reads as [0]; a block without that field has an
    invalid date. *)
Theorem parse_blocks_with_missing_fields rawCommits settings :
  ((exists cs, _parse rawCommits settings = Return cs)
   <-> (forall report block,
          In report rawCommits -> In block (Raw.commits report) ->
          blockDate block <> InvalidDate))
  /\ (forall gitFolder block t,
        blockDate block = TimeValue t ->
        exists c, parseCommit gitFolder block = Return c
                  /\ date c = TimeValue t
                  /\ lines c = of_Z (countOf "insertions" (statsLine block)
                                     + countOf "deletions" (statsLine block)))
  /\ (forall word, countOf word None = 0)
  /\ (forall block, epochField block = Some EmptyString -> blockDate block = TimeValue 0)
  /\ (forall block, epochField block = None -> blockDate block = InvalidDate).
Proof.
  split; [|split; [|split; [|split]]].
  - rewrite <- parseAll_returns. unfold _parse.
    destruct (parseAll rawCommits) as [all|e|code]; cbn [bind].
    + split; intros _; now eexists.
    + split; intros [x Hx]; discriminate.
    + split; intros [x Hx]; discriminate.
  - intros gitFolder block t Ht. pose proof (parseCommit_inv gitFolder block) as H.
    destruct (parseCommit gitFolder block) as [c|e|code].
    + exists c. destruct H as (Hd & _ & Hl). rewrite Hd, Ht. now repeat split.
    + rewrite Ht in H. discriminate.
    + destruct H.
  - intros word. reflexivity.
  - intros block H. unfold blockDate. rewrite H. reflexivity.
  - intros block H. unfold blockDate. rewrite H. reflexivity.
Qed.

Lemma parse_blocks_with_missing_fields_witness :
  blockDate noStatsBlock = TimeValue 1614816000000
  /\ statsLine noStatsBlock = None
  /\ exists c, parseCommit "/home/dev/report/.git" noStatsBlock = Return c
               /\ date c = TimeValue 1614816000000
               /\ lines c = of_Z 0.
Proof.
  split; [vm_compute; reflexivity|]. split; [reflexivity|].
  destruct (parse_blocks_with_missing_fields [] exampleSettings) as (_ & H & _).
  apply (H "/home/dev/report/.git"%string noStatsBlock 1614816000000).
  vm_compute; reflexivity.
Defined.

(* ===================================================================== *)
(** ** The time of the standard method *)
(* ===================================================================== *)



(** C1.  The standard method on [hugeDayLog], with 8 hours a day and steps
    of a quarter of an hour: the share of the first commit is 2e-8, the
    quotient is 6.4e-7, and [parseInt] reads the digit 6 of its string
    ["6.4e-7"]; the commit gets 1.5 hours, where the floor of the quotient
    is 0 and the specification gives [minCommitTime], 0.25 hours. *)
Theorem standard_time_of_tiny_share :
  exists r parsed c0 c,
    standardCalculation hugeDayLog exampleSettings = Return r
    /\ _parse hugeDayLog exampleSettings = Return parsed
    /\ parsed !! 0%nat = Some c0
    /\ commits r !! 0%nat = Some c
    /\ ratioOf parsed c0 = Fin (1 # 50000000)
    /\ time c = Some (Fin (3 # 2))
    /\ floorTime exampleSettings (ratioOf parsed c0) = Fin (1 # 4).
Proof.
  destruct (standardCalculation hugeDayLog exampleSettings) as [r| |] eqn:Er;
    [|vm_compute in Er; discriminate..].
  destruct (_parse hugeDayLog exampleSettings) as [parsed| |] eqn:Ep;
    [|vm_compute in Ep; discriminate..].
  vm_compute in Er. injection Er as <-. vm_compute in Ep. injection Ep as <-.
  do 4 eexists. repeat split; vm_compute; reflexivity.
Qed.

(* ===================================================================== *)
(** ** The equal method on days with small commits *)
(* ===================================================================== *)

(** C2.  The equal method on [unevenDayLog] with [hourSettings].  The
    commit of 5 lines starts at 0.4 hours and is clamped to 1 hour; the
    other two are scaled by 7/8, to 5.74 and 0.91 hours.  The times of the
    day add up to 7.65 hours, not to the 8 hours of [maxHoursPerDay], and
    the commit of 13 lines ends below [minCommitTime]. *)
Theorem equal_day_after_clamping :
  exists r,
    equalCalculation unevenDayLog hourSettings = Return r
    /\ shortDate <$> commits r
       = ["2021-03-04"; "2021-03-04"; "2021-03-04"]%string
    /\ time <$> commits r
       = [Some (Fin (287 # 50)); Some (Fin (91 # 100)); Some (of_Z 1)]
    /\ isMinCommitTime <$> commits r = [false; false; true]
    /\ sum (time_of <$> commits r) = Fin (153 # 20)
    /\ ltb (sum (time_of <$> commits r)) (maxHoursPerDay hourSettings) = true
    /\ ltb (Fin (91 # 100)) (minCommitTime hourSettings) = true.
Proof.
  destruct (equalCalculation unevenDayLog hourSettings) as [r| |] eqn:Er;
    [|vm_compute in Er; discriminate..].
  vm_compute in Er. injection Er as <-.
  eexists. repeat split; vm_compute; reflexivity.
Qed.

(** C4.  On [oneLineLog] the lines of the day sum to 0, and the ratio that
    [_calculation] passes to the time method is [0 / 0], that is [NaN], not
    0: a method that returns its argument records [NaN].  The standard
    method turns it into [minCommitTime]; the equal method returns [NaN] as
    the time of the commit. *)
Theorem ratio_of_day_without_lines :
  exists parsed c0 observed standard equal,
    _parse oneLineLog hourSettings = Return parsed
    /\ parsed = [c0]
    /\ lines c0 = of_Z 0
    /\ linesInDayOf (shortDate c0) parsed = of_Z 0
    /\ ratioOf parsed c0 = NaN
    /\ _calculation oneLineLog hourSettings (fun ratio => ratio) = Return observed
    /\ time <$> commits observed = [Some NaN]
    /\ standardCalculation oneLineLog hourSettings = Return standard
    /\ time <$> commits standard = [Some (of_Z 1)]
    /\ equalCalculation oneLineLog hourSettings = Return equal
    /\ time <$> commits equal = [Some NaN].
Proof.
  destruct (_parse oneLineLog hourSettings) as [parsed| |] eqn:Ep;
    [|vm_compute in Ep; discriminate..].
  destruct (_calculation oneLineLog hourSettings (fun ratio => ratio)) as [observed| |] eqn:Eo;
    [|vm_compute in Eo; discriminate..].
  destruct (standardCalculation oneLineLog hourSettings) as [standard| |] eqn:Es;
    [|vm_compute in Es; discriminate..].
  destruct (equalCalculation oneLineLog hourSettings) as [equal| |] eqn:Ee;
    [|vm_compute in Ee; discriminate..].
  vm_compute in Ep, Eo, Es, Ee.
  injection Ep as <-. injection Eo as <-. injection Es as <-. injection Ee as <-.
  do 5 eexists. repeat split; vm_compute; reflexivity.
Qed.

(** C7.  The equal method on [busyDayLog] with [hourSettings], whose
    numbers are all positive.  The nine small commits are clamped to one
    hour each, the budget left is [8 - 9 * 1 = -1] hour, and the large
    commit gets [0.91 * -1 = -0.91] hours: a negative time. *)
Theorem equal_time_negative :
  exists r,
    equalCalculation busyDayLog hourSettings = Return r
    /\ time <$> commits r
       = Some (Fin (-91 # 100)) :: List.repeat (Some (of_Z 1)) 9
    /\ ~ nonneg (Fin (-91 # 100))
    /\ nonneg (maxHoursPerDay hourSettings)
    /\ nonneg (minCommitTime hourSettings)
    /\ ltb (of_Z 0) (graduation hourSettings) = true.
Proof.
  destruct (equalCalculation busyDayLog hourSettings) as [r| |] eqn:Er;
    [|vm_compute in Er; discriminate..].
  vm_compute in Er. injection Er as <-.
  eexists. split; [reflexivity|]. split; [vm_compute; reflexivity|].
  split; [|split; [|split]]; vm_compute; congruence.
Qed.


(* ===================================================================== *)
(** ** The standard method gives no negative time *)
(* ===================================================================== *)

Lemma nonneg_of_Z z : 0 <= z -> nonneg (of_Z z).
Proof. intros H. unfold nonneg, of_Z, Qle. simpl. lia. Qed.

Lemma Qneg_nonneg q : (0 <= q)%Q -> Qneg q = false.
Proof. unfold Qle, Qneg. simpl. intros H. apply Z.ltb_ge. lia. Qed.

Lemma nan_or_nonneg_mul a b :
  nan_or_nonneg a -> nan_or_nonneg b -> nan_or_nonneg (mul a b).
Proof.
  intros [->|Ha] [->|Hb]; try (left; reflexivity); try (left; now destruct a).
  destruct a as [|[]|x], b as [|[]|y]; simpl in Ha, Hb; try contradiction;
    try discriminate; unfold mul.
  - right. reflexivity.
  - rewrite (Qneg_nonneg y Hb). destruct (Qzero y); [now left|now right].
  - rewrite (Qneg_nonneg x Ha). destruct (Qzero x); [now left|now right].
  - right. simpl. rewrite Qred_correct. now apply Qmult_le_0_compat.
Qed.

Lemma nan_or_nonneg_div a b :
  nan_or_nonneg a -> nan_or_nonneg b -> nan_or_nonneg (div a b).
Proof.
  intros [->|Ha] [->|Hb]; try (left; reflexivity); try (left; now destruct a).
  destruct a as [|[]|x], b as [|[]|y]; simpl in Ha, Hb; try contradiction;
    try discriminate; unfold div.
  - now left.
  - rewrite (Qneg_nonneg y Hb). now right.
  - right. simpl. apply Qle_refl.
  - rewrite (Qneg_nonneg x Ha).
    destruct (Qzero y); [destruct (Qzero x); [now left|now right]|].
    right. simpl. rewrite Qred_correct. unfold Qdiv.
    apply Qmult_le_0_compat; [exact Ha|now apply Qinv_le_0_compat].
Qed.

Lemma Qfloor_nonneg q : (0 <= q)%Q -> 0 <= Qfloor q.
Proof. intros H. apply (Qfloor_resp_le 0 q) in H. exact H. Qed.

Lemma lead_digit_Z_nonneg fuel n : 0 <= n -> 0 <= lead_digit_Z fuel n.
Proof.
  revert n. induction fuel as [|fuel IH]; intros n H; cbn [lead_digit_Z]; [exact H|].
  destruct (n <? 10); [exact H|]. apply IH. now apply Z.div_pos.
Qed.

Lemma lead_digit_frac_nonneg fuel q : (0 <= q)%Q -> 0 <= lead_digit_frac fuel q.
Proof.
  revert q. induction fuel as [|fuel IH]; intros q H; cbn [lead_digit_frac].
  - now apply Qfloor_nonneg.
  - destruct (Qle_bool 1 q); [now apply Qfloor_nonneg|].
    apply IH. apply Qmult_le_0_compat; [exact H|discriminate].
Qed.

Lemma lead_digit_nonneg q : (0 <= q)%Q -> 0 <= lead_digit q.
Proof.
  intros H. unfold lead_digit. destruct (Qle_bool 1 q).
  - apply lead_digit_Z_nonneg. now apply Qfloor_nonneg.
  - apply lead_digit_frac_nonneg. now rewrite Qred_correct.
Qed.

Lemma nan_or_nonneg_parseInt_num a : nan_or_nonneg a -> nan_or_nonneg (parseInt_num a).
Proof.
  intros [->|Ha]; [now left|]. destruct a as [|s|x]; [now left|now left|].
  simpl in Ha. right. unfold parseInt_num. destruct (Qzero x); [now apply nonneg_of_Z|].
  unfold Qabs'. rewrite (Qneg_nonneg x Ha).
  destruct (_ || _); apply nonneg_of_Z.
  - rewrite Z.mul_1_l. now apply lead_digit_nonneg.
  - unfold Qtrunc. apply Z.quot_pos; [|lia]. unfold Qle in Ha. simpl in Ha. lia.
Qed.

Lemma nonneg_or a b : nan_or_nonneg a -> nonneg b -> nonneg (or a b).
Proof.
  intros [->|Ha] Hb; [exact Hb|]. unfold or. destruct (truthy a); assumption.
Qed.

Lemma ltb_zero_nonneg a : ltb (of_Z 0) a = true -> nonneg a.
Proof.
  destruct a as [|s|x]; unfold ltb, of_Z; simpl; try discriminate.
  - now destruct s.
  - unfold Qltb. intros H. apply negb_true_iff in H.
    destruct (Qle_bool x (inject_Z 0)) eqn:E; [discriminate|].
    destruct (Qlt_le_dec x 0) as [Hlt|Hle]; [|exact Hle].
    apply Qlt_le_weak, Qle_bool_iff in Hlt. unfold inject_Z in E. congruence.
Qed.

(** With settings that are not negative, the standard time of a ratio
    that is [NaN] or not negative is not negative. *)
Lemma standardTime_nonneg settings ratio :
  nonneg (maxHoursPerDay settings) ->
  ltb (of_Z 0) (graduation settings) = true ->
  nonneg (minCommitTime settings) ->
  nan_or_nonneg ratio ->
  nonneg (standardTime settings ratio).
Proof.
  intros Hmax Hg Hmin Hr. apply ltb_zero_nonneg in Hg. unfold standardTime.
  apply nonneg_or; [|exact Hmin].
  apply nan_or_nonneg_mul; [|now right].
  apply nan_or_nonneg_parseInt_num, nan_or_nonneg_div; [|now right].
  apply nan_or_nonneg_mul; [exact Hr|now right].
Qed.

Lemma linesInDay_nonneg sd (cs : list Commit) :
  Forall fresh cs -> exists n, 0 <= n /\ linesInDayOf sd cs = of_Z n.
Proof.
  unfold linesInDayOf, dayCommitsOf.
  assert (H : forall acc, 0 <= acc -> Forall fresh cs ->
             exists n, 0 <= n
               /\ fold_left (fun prev act => add prev (lines act))
                    (List.filter (fun commit => String.eqb (shortDate commit) sd) cs)
                    (of_Z acc) = of_Z n).
  { induction cs as [|c cs IH]; intros acc Hacc Hf; cbn [List.filter fold_left].
    - now exists acc.
    - apply Forall_cons in Hf as [(_ & _ & n & Hn & Hl) Hf].
      destruct (String.eqb (shortDate c) sd); cbn [fold_left]; [|now apply IH].
      rewrite Hl, add_of_Z. apply IH; [lia|exact Hf]. }
  apply H. lia.
Qed.

Lemma ratioOf_nonneg (cs : list Commit) c :
  Forall fresh cs -> fresh c -> nan_or_nonneg (ratioOf cs c).
Proof.
  intros Hcs (_ & _ & n & Hn & Hl). unfold ratioOf.
  destruct (linesInDay_nonneg (shortDate c) cs Hcs) as (m & Hm & ->). rewrite Hl.
  apply nan_or_nonneg_div; right; now apply nonneg_of_Z.
Qed.

(** The standard method, with settings that are not negative and a
    positive graduation, gives every commit a time that is not negative. *)
Lemma standard_times_nonneg rawCommits settings r :
  nonneg (maxHoursPerDay settings) ->
  ltb (of_Z 0) (graduation settings) = true ->
  nonneg (minCommitTime settings) ->
  standardCalculation rawCommits settings = Return r ->
  Forall (fun c => exists t, time c = Some t /\ nonneg t) (commits r).
Proof.
  intros Hmax Hg Hmin H.
  apply calculation_commits in H as (parsed & Hp & _ & -> & _).
  pose proof (parse_fresh _ _ _ Hp) as Hf.
  apply Forall_fmap, Forall_forall. intros c Hc. simpl.
  eexists. split; [reflexivity|].
  apply standardTime_nonneg; try assumption.
  apply ratioOf_nonneg; [exact Hf|]. rewrite Forall_forall in Hf. now apply Hf.
Qed.

(* ===================================================================== *)
(** ** More on [_parse]: the window, several repositories, equal dates *)
(* ===================================================================== *)

Lemma in_window_spec settings c :
  in_window settings c = true
  <-> exists s d e,
        startTime settings = TimeValue s /\ date c = TimeValue d
        /\ endTime settings = TimeValue e /\ s < d < e.
Proof.
  unfold in_window. rewrite andb_true_iff. split.
  - intros [Hs He].
    apply getTime_ltb_inv in Hs as (s & d & Hs & Hd & Hsd).
    apply getTime_ltb_inv in He as (d' & e & Hd' & He & Hde).
    rewrite Hd in Hd'. injection Hd' as <-.
    exists s, d, e. repeat split; assumption.
  - intros (s & d & e & -> & -> & -> & Hsd & Hde). cbn [getTime].
    rewrite !ltb_of_Z. split; apply Z.ltb_lt; assumption.
Qed.

Lemma parse_of_parseAll rawCommits settings all :
  parseAll rawCommits = Return all ->
  _parse rawCommits settings
  = Return (sort compareDates (List.filter (in_window settings) all)).
Proof. intros H. unfold _parse. now rewrite H. Qed.

(** [_parse] keeps every parsed commit that lies strictly inside the
    window, once each, and nothing else. *)
Theorem parse_keeps_the_window rawCommits settings all :
  parseAll rawCommits = Return all ->
  exists cs,
    _parse rawCommits settings = Return cs
    /\ cs ≡ₚ List.filter (in_window settings) all
    /\ forall c, In c cs
         <-> In c all
             /\ exists s d e,
                  startTime settings = TimeValue s /\ date c = TimeValue d
                  /\ endTime settings = TimeValue e /\ s < d < e.
Proof.
  intros H. eexists. split; [exact (parse_of_parseAll _ settings _ H)|].
  split; [apply sort_perm|]. intros c.
  rewrite <- in_window_spec, <- filter_In, <- !list_elem_of_In.
  now rewrite sort_perm.
Qed.

Lemma parse_keeps_the_window_witness :
  parseAll exampleLog = Return [exampleFirst; exampleSecond]
  /\ exists cs,
       _parse exampleLog exampleSettings = Return cs
       /\ cs ≡ₚ List.filter (in_window exampleSettings) [exampleFirst; exampleSecond]
       /\ forall c, In c cs
            <-> In c [exampleFirst; exampleSecond]
                /\ exists s d e,
                     startTime exampleSettings = TimeValue s /\ date c = TimeValue d
                     /\ endTime exampleSettings = TimeValue e /\ s < d < e.
Proof.
  assert (H : parseAll exampleLog = Return [exampleFirst; exampleSecond])
    by (vm_compute; reflexivity).
  split; [exact H|].
  exact (parse_keeps_the_window exampleLog exampleSettings _ H).
Defined.

Lemma filter_none {A : Type} (f : A -> bool) (l : list A) :
  (forall x, In x l -> f x = false) -> List.filter f l = [].
Proof.
  induction l as [|x l IH]; intros H; cbn [List.filter]; [reflexivity|].
  rewrite (H x) by now left. apply IH. intros y Hy. apply H. now right.
Qed.

(** A window without a valid bound, or with no millisecond strictly
    between its bounds, leaves no commit: the run ends with "No commits
    found", whatever the log holds, as long as the log can be parsed. *)
Theorem empty_window_finds_no_commits rawCommits settings timeCalculationMethod all :
  parseAll rawCommits = Return all ->
  startTime settings = InvalidDate \/ endTime settings = InvalidDate
  \/ (exists s e, startTime settings = TimeValue s /\ endTime settings = TimeValue e
                  /\ e <= s + 1) ->
  _parse rawCommits settings = Return []
  /\ _calculation rawCommits settings timeCalculationMethod = Exit 0.
Proof.
  intros H Hw.
  assert (Hp : _parse rawCommits settings = Return []).
  { rewrite (parse_of_parseAll _ _ _ H).
    replace (List.filter (in_window settings) all) with (@nil Commit); [reflexivity|].
    symmetry. apply filter_none. intros c _.
    destruct (in_window settings c) eqn:E; [|reflexivity].
    apply in_window_spec in E as (s & d & e & Hs & _ & He & Hsd & Hde).
    destruct Hw as [Hw|[Hw|(s' & e' & Hs' & He' & Hle)]]; try congruence.
    rewrite Hs in Hs'. rewrite He in He'.
    injection Hs' as <-. injection He' as <-. lia. }
  split; [exact Hp|]. unfold _calculation. now rewrite Hp.
Qed.

Lemma empty_window_finds_no_commits_witness :
  _parse exampleLog
    {| startTime := TimeValue 1614816000000; endTime := TimeValue 1614816000001;
       maxHoursPerDay := of_Z 8; graduation := Fin (1 # 4);
       minCommitTime := Fin (1 # 4); equalRoundPrecision := 2 |} = Return []
  /\ _calculation exampleLog
       {| startTime := TimeValue 1614816000000; endTime := TimeValue 1614816000001;
          maxHoursPerDay := of_Z 8; graduation := Fin (1 # 4);
          minCommitTime := Fin (1 # 4); equalRoundPrecision := 2 |}
       (fun ratio => ratio) = Exit 0.
Proof.
  apply (empty_window_finds_no_commits exampleLog _ _ [exampleFirst; exampleSecond]).
  - vm_compute; reflexivity.
  - right. right. exists 1614816000000, 1614816000001.
    split; [reflexivity|]. split; [reflexivity|]. lia.
Defined.

(** *** Several repositories *)

Lemma parseAll_fold_stuck rawCommits (o : outcome (list Commit)) :
  (forall acc, o <> Return acc) ->
  fold_left
    (fun commitArray gitReport =>
       bind commitArray (fun acc =>
       bind (mapM (parseCommit (Raw.gitFolder gitReport)) (Raw.commits gitReport))
            (fun parsed => Return (acc ++ parsed))))
    rawCommits o = o.
Proof.
  revert o. induction rawCommits as [|r raw IH]; intros o Ho; cbn [fold_left]; [reflexivity|].
  destruct o as [acc|e|code]; [now destruct (Ho acc)| |]; cbn [bind]; now apply IH.
Qed.

Lemma parseAll_fold_acc rawCommits acc :
  fold_left
    (fun commitArray gitReport =>
       bind commitArray (fun acc =>
       bind (mapM (parseCommit (Raw.gitFolder gitReport)) (Raw.commits gitReport))
            (fun parsed => Return (acc ++ parsed))))
    rawCommits (Return acc)
  = bind (parseAll rawCommits) (fun all => Return (acc ++ all)).
Proof.
  unfold parseAll. revert acc.
  induction rawCommits as [|r raw IH]; intros acc; cbn [fold_left bind].
  - now rewrite app_nil_r.
  - destruct (mapM (parseCommit (Raw.gitFolder r)) (Raw.commits r)) as [p|e|code];
      cbn [bind].
    + rewrite IH, (IH ([] ++ p)). cbn [app].
      destruct (fold_left _ raw (Return [])) as [all|e|code]; cbn [bind];
        [now rewrite app_assoc|reflexivity|reflexivity].
    + rewrite !parseAll_fold_stuck by discriminate. reflexivity.
    + rewrite !parseAll_fold_stuck by discriminate. reflexivity.
Qed.

Lemma parseAll_app a b :
  parseAll (a ++ b)
  = bind (parseAll a) (fun x => bind (parseAll b) (fun y => Return (x ++ y))).
Proof.
  unfold parseAll at 1. rewrite fold_left_app. fold (parseAll a).
  destruct (parseAll a) as [x|e|code]; cbn [bind].
  - apply parseAll_fold_acc.
  - now apply parseAll_fold_stuck.
  - now apply parseAll_fold_stuck.
Qed.

Lemma parse_returns_inv rawCommits settings cs :
  _parse rawCommits settings = Return cs ->
  exists all, parseAll rawCommits = Return all
    /\ cs = sort compareDates (List.filter (in_window settings) all).
Proof.
  intros H. pose proof (parse_inv rawCommits settings) as Hi. rewrite H in Hi.
  destruct Hi as (all & Hall & Hcs & _). now exists all.
Qed.

(** The logs of several repositories give one timeline: parsing two lists
    of repositories together returns the commits of both, each once, in
    ascending order of date. *)
Theorem parse_merges_repositories a b settings ca cb :
  _parse a settings = Return ca ->
  _parse b settings = Return cb ->
  exists c,
    _parse (a ++ b) settings = Return c /\ c ≡ₚ ca ++ cb /\ ascending c.
Proof.
  intros Ha Hb.
  apply parse_returns_inv in Ha as (alla & Halla & ->).
  apply parse_returns_inv in Hb as (allb & Hallb & ->).
  assert (Hab : parseAll (a ++ b) = Return (alla ++ allb)).
  { rewrite parseAll_app, Halla, Hallb. reflexivity. }
  eexists. split; [exact (parse_of_parseAll _ settings _ Hab)|]. split.
  - rewrite !sort_perm. now rewrite List.filter_app.
  - eapply parse_ascending. exact (parse_of_parseAll _ settings _ Hab).
Qed.

Lemma parse_merges_repositories_witness :
  exists c,
    _parse (exampleLog ++ smallCommitLog) exampleSettings = Return c
    /\ c ≡ₚ [exampleFirst; exampleSecond] ++ [smallCommit; largeCommit]
    /\ ascending c.
Proof.
  apply (parse_merges_repositories exampleLog smallCommitLog exampleSettings);
    vm_compute; reflexivity.
Defined.

(** [_parse] throws on two lists of repositories exactly when it throws on
    the first, or returns on the first and throws on the second. *)
Theorem parse_throws_on_first_bad_repository a b settings e :
  _parse (a ++ b) settings = Throw e
  <-> _parse a settings = Throw e
      \/ ((exists ca, _parse a settings = Return ca) /\ _parse b settings = Throw e).
Proof.
  unfold _parse. rewrite parseAll_app.
  pose proof (parseAll_fresh a) as Hfa. pose proof (parseAll_fresh b) as Hfb.
  destruct (parseAll a) as [x|ea|code]; cbn [bind]; [| |destruct Hfa].
  - destruct (parseAll b) as [y|eb|code]; cbn [bind]; [| |destruct Hfb].
    + split; [discriminate|]. intros [H|[_ H]]; discriminate.
    + split; [intros H; right; split; [now eexists|exact H]|].
      intros [H|[_ H]]; [discriminate|exact H].
  - split; [intros H; now left|]. intros [H|[[ca H] _]]; [exact H|discriminate].
Qed.

(** *** Commits with equal dates *)

Lemma sort_insert_stable t x l :
  has_valid_date x -> Forall has_valid_date l ->
  List.filter (atTime t) (sort_insert compareDates x l)
  = List.filter (atTime t) (x :: l).
Proof.
  intros Hx Hl. induction Hl as [|y l Hy Hl IH]; [reflexivity|].
  cbn [sort_insert]. rewrite (compareDates_valid x y Hx Hy).
  destruct (Z.ltb_spec (timeValueOf y) (timeValueOf x)) as [Hlt|Hge]; [|reflexivity].
  cbn [List.filter]. rewrite IH. cbn [List.filter]. unfold atTime.
  destruct (Z.eqb_spec (timeValueOf y) t), (Z.eqb_spec (timeValueOf x) t);
    try reflexivity. lia.
Qed.

Lemma sort_stable t l :
  Forall has_valid_date l ->
  List.filter (atTime t) (sort compareDates l) = List.filter (atTime t) l.
Proof.
  induction l as [|x l IH]; intros H; [reflexivity|].
  apply Forall_cons in H as [Hx Hl]. cbn [sort fold_right].
  fold (sort compareDates l).
  rewrite sort_insert_stable; [|exact Hx|now rewrite sort_perm].
  cbn [List.filter]. now rewrite IH.
Qed.

(** The sort is stable: the commits that have the same date come out in
    the order in which the log lists them. *)
Theorem parse_keeps_order_of_equal_dates rawCommits settings all cs t :
  parseAll rawCommits = Return all ->
  _parse rawCommits settings = Return cs ->
  List.filter (atTime t) cs
  = List.filter (atTime t) (List.filter (in_window settings) all).
Proof.
  intros Hall H. rewrite (parse_of_parseAll _ _ _ Hall) in H. injection H as <-.
  apply sort_stable. pose proof (parseAll_fresh rawCommits) as Hf.
  rewrite Hall in Hf. cbn [returns_all] in Hf.
  apply Forall_forall. intros c Hc%list_elem_of_In%filter_In.
  destruct Hc as [Hc _]. rewrite Forall_forall in Hf.
  apply list_elem_of_In in Hc. now destruct (Hf c Hc) as (_ & Hd & _).
Qed.

Lemma parse_keeps_order_of_equal_dates_witness :
  exists all cs,
    parseAll exampleLog = Return all
    /\ _parse exampleLog exampleSettings = Return cs
    /\ List.filter (atTime 1614816000000) cs
       = List.filter (atTime 1614816000000) (List.filter (in_window exampleSettings) all).
Proof.
  destruct (parseAll exampleLog) as [all| |] eqn:Ea; [|vm_compute in Ea; discriminate..].
  destruct (_parse exampleLog exampleSettings) as [cs| |] eqn:Ec;
    [|vm_compute in Ec; discriminate..].
  exists all, cs. split; [reflexivity|]. split; [reflexivity|].
  exact (parse_keeps_order_of_equal_dates exampleLog exampleSettings all cs
           1614816000000 Ea Ec).
Defined.

(* ===================================================================== *)
(** ** The equal method, commit by commit *)
(* ===================================================================== *)

Section EqualDayCount.

Variable settings : Settings.

Lemma clampCount_agree (st st' : list Commit) members :
  (forall j, j ∈ members -> st' !! j = st !! j) ->
  clampCount settings st' members = clampCount settings st members.
Proof.
  intros H. unfold clampCount. f_equal. apply filter_ext_in.
  intros j Hj. rewrite H; [reflexivity|]. now apply list_elem_of_In.
Qed.

Lemma clamp_step_count cs k i :
  (clamp_step settings (cs, k) i).2 = (k + clampCount settings cs [i])%nat.
Proof.
  unfold clamp_step, clampCount. cbn [List.filter].
  destruct (cs !! i) as [c|]; [|cbn; lia].
  destruct (ltb (time_of c) (minCommitTime settings)); cbn; lia.
Qed.

Lemma clamp_fold_count members cs k :
  NoDup members ->
  (fold_left (clamp_step settings) members (cs, k)).2
  = (k + clampCount settings cs members)%nat.
Proof.
  revert cs k. induction members as [|i members IH]; intros cs k Hnd; cbn [fold_left].
  - unfold clampCount. cbn. lia.
  - apply NoDup_cons in Hnd as [Hi Hnd].
    pose proof (clamp_step_commits settings cs k i) as Hc.
    pose proof (clamp_step_count cs k i) as Hk.
    destruct (clamp_step settings (cs, k) i) as [cs' k']. cbn [fst snd] in Hc, Hk.
    subst cs' k'. rewrite IH by exact Hnd.
    rewrite (clampCount_agree cs (alter (clampCommit settings) i cs) members).
    + unfold clampCount. cbn [List.filter].
      destruct (match cs !! i with Some c => _ | None => false end); cbn [length]; lia.
    + intros j Hj. apply list_lookup_alter_ne. intros ->. contradiction.
Qed.

(** What a day does to one of its commits. *)
Lemma equalDay_lookup_in cs members i c :
  NoDup members -> i ∈ members -> cs !! i = Some c ->
  equalDay settings cs members !! i
  = Some (equalDayCommit settings (clampCount settings cs members) c).
Proof.
  intros Hnd Hi Hc. unfold equalDay, equalDayCommit.
  pose proof (clamp_fold_commits settings members cs O) as H1.
  pose proof (clamp_fold_count members cs O Hnd) as Hk.
  destruct (fold_left (clamp_step settings) members (cs, O)) as [cs1 k].
  cbn [fst snd] in H1, Hk. subst cs1. rewrite Nat.add_0_l in Hk. subst k.
  rewrite forEach_alter_lookup_in by assumption.
  fold (newMaxHoursPerDayOf settings (clampCount settings cs members)).
  destruct (clampCount settings cs members =? 0)%nat.
  - rewrite forEach_alter_lookup_in by assumption. now rewrite Hc.
  - rewrite !forEach_alter_lookup_in by assumption. now rewrite Hc.
Qed.

Lemma equalDays_lookup_in (groups : list (string * list nat)) cs sd members i c :
  NoDup (concat (snd <$> groups)) -> (sd, members) ∈ groups -> i ∈ members ->
  cs !! i = Some c ->
  fold_left (fun st group => equalDay settings st (snd group)) groups cs !! i
  = Some (equalDayCommit settings (clampCount settings cs members) c).
Proof.
  revert cs. induction groups as [|g groups IH]; intros cs Hnd Hg Hi Hc.
  - inversion Hg.
  - rewrite fmap_cons in Hnd. cbn [concat] in Hnd.
    apply NoDup_app in Hnd as (Hgnd & Hdisj & Hrest). cbn [fold_left].
    apply elem_of_cons in Hg as [<-|Hg].
    + cbn [snd] in *. rewrite equalDays_lookup_notin by (now apply Hdisj).
      now apply equalDay_lookup_in.
    + assert (Hin : forall j, j ∈ members -> j ∉ snd g).
      { intros j Hj Hjg. apply (Hdisj j Hjg).
        apply list_elem_of_In, in_concat. exists members.
        split; [|now apply list_elem_of_In].
        apply list_elem_of_In, list_elem_of_fmap. now exists (sd, members). }
      rewrite (IH (equalDay settings cs (snd g))); try assumption.
      * f_equal. f_equal. apply clampCount_agree. intros j Hj.
        apply equalDay_lookup_notin. now apply Hin.
      * rewrite equalDay_lookup_notin by (now apply Hin). exact Hc.
Qed.

End EqualDayCount.

(** *** The groups of [_.groupBy] *)

Lemma indicesOfKey_snoc {A : Type} (key : A -> string) (l : list A) x k :
  indicesOfKey key (l ++ [x]) k
  = indicesOfKey key l k ++ (if String.eqb (key x) k then [length l] else []).
Proof.
  unfold indicesOfKey. rewrite length_app. cbn [length].
  rewrite Nat.add_1_r, seq_S, List.filter_app. cbn [List.filter Nat.add]. f_equal.
  - apply filter_ext_in. intros i Hi. apply in_seq in Hi.
    rewrite lookup_app_l by lia. reflexivity.
  - rewrite list_lookup_middle by reflexivity. reflexivity.
Qed.

Lemma groupBy_snoc {A : Type} (key : A -> string) (l : list A) x :
  Lodash.groupBy key (l ++ [x])
  = Lodash.group_insert (key x) (length l) (Lodash.groupBy key l).
Proof.
  unfold Lodash.groupBy. rewrite length_app. cbn [length].
  rewrite Nat.add_1_r, seq_S. cbn [Nat.add].
  assert (Hc : forall (a : list nat) (l : list A) n,
             length a = length l ->
             combine (a ++ [n]) (l ++ [x]) = combine a l ++ [(n, x)]).
  { clear. induction a as [|i a IH]; intros [|y l] n H; try discriminate; [reflexivity|].
    cbn. f_equal. apply IH. now injection H. }
  rewrite Hc by apply length_seq. now rewrite fold_left_app.
Qed.

Lemma group_insert_keys k n gs :
  fst <$> Lodash.group_insert k n gs
  = if decide (k ∈ fst <$> gs) then fst <$> gs else (fst <$> gs) ++ [k].
Proof.
  induction gs as [|[k' ms] gs IH]; cbn [Lodash.group_insert].
  - rewrite decide_False by (intros H; inversion H). reflexivity.
  - rewrite !fmap_cons. cbn [fst].
    destruct (String.eqb_spec k k') as [->|Hne].
    + rewrite decide_True by apply list_elem_of_here. reflexivity.
    + rewrite fmap_cons, IH. cbn [fst].
      destruct (decide (k ∈ fst <$> gs)) as [Hin|Hnin].
      * rewrite decide_True by (now apply list_elem_of_further). reflexivity.
      * rewrite decide_False; [reflexivity|].
        intros [?|?]%elem_of_cons; contradiction.
Qed.

Lemma group_insert_elem k n gs sd ms :
  NoDup (fst <$> gs) ->
  (sd, ms) ∈ Lodash.group_insert k n gs ->
  (sd <> k /\ (sd, ms) ∈ gs)
  \/ (sd = k /\ exists ms0, ms = ms0 ++ [n]
                 /\ ((k, ms0) ∈ gs \/ (ms0 = [] /\ k ∉ fst <$> gs))).
Proof.
  induction gs as [|[k' ms'] gs IH]; cbn [Lodash.group_insert]; intros Hnd H.
  - apply list_elem_of_singleton in H. injection H as -> ->.
    right. split; [reflexivity|]. exists []. split; [reflexivity|].
    right. split; [reflexivity|]. intros Hin. inversion Hin.
  - rewrite fmap_cons in Hnd. cbn [fst] in Hnd. apply NoDup_cons in Hnd as [Hk' Hnd].
    destruct (String.eqb_spec k k') as [->|Hne].
    + apply elem_of_cons in H as [H|H].
      * injection H as -> ->. right. split; [reflexivity|]. exists ms'.
        split; [reflexivity|]. left. apply list_elem_of_here.
      * left. split; [|now apply list_elem_of_further].
        intros ->. apply Hk'. apply list_elem_of_fmap. now exists (k', ms).
    + apply elem_of_cons in H as [H|H].
      * injection H as -> ->. left. split; [congruence|apply list_elem_of_here].
      * destruct (IH Hnd H) as [[Hsd Hin]|(-> & ms0 & -> & Hor)].
        -- left. split; [exact Hsd|now apply list_elem_of_further].
        -- right. split; [reflexivity|]. exists ms0. split; [reflexivity|].
           destruct Hor as [Hin|[-> Hnin]].
           ++ left. now apply list_elem_of_further.
           ++ right. split; [reflexivity|]. rewrite fmap_cons. cbn [fst].
              intros [?|?]%elem_of_cons; [congruence|contradiction].
Qed.

(** [_.groupBy] makes one group for each key, and the group of a key
    holds the indices of the elements with that key, in ascending order. *)
Lemma groupBy_spec {A : Type} (key : A -> string) (l : list A) :
  NoDup (fst <$> Lodash.groupBy key l)
  /\ (forall sd ms, (sd, ms) ∈ Lodash.groupBy key l -> ms = indicesOfKey key l sd)
  /\ (forall i x, l !! i = Some x -> key x ∈ fst <$> Lodash.groupBy key l).
Proof.
  induction l as [|x l (Hnd & Hms & Hkeys)] using rev_ind.
  - split; [constructor|]. split; [intros sd ms H; inversion H|].
    intros i x H. discriminate.
  - rewrite groupBy_snoc. set (gs := Lodash.groupBy key l) in *.
    split; [|split].
    + rewrite group_insert_keys. destruct (decide (key x ∈ fst <$> gs)); [exact Hnd|].
      apply NoDup_app. split; [exact Hnd|]. split; [|apply NoDup_singleton].
      intros k Hk Hk'. apply list_elem_of_singleton in Hk'. congruence.
    + intros sd ms H. rewrite indicesOfKey_snoc.
      apply group_insert_elem in H as [[Hsd Hin]|(-> & ms0 & -> & Hor)]; [| |exact Hnd].
      * destruct (String.eqb_spec (key x) sd) as [Heq|_]; [congruence|].
        rewrite app_nil_r. now apply Hms.
      * rewrite String.eqb_refl. f_equal. destruct Hor as [Hin|[-> Hnin]]; [now apply Hms|].
        symmetry. unfold indicesOfKey. apply filter_none. intros i Hi.
        destruct (l !! i) as [y|] eqn:Ey; [|reflexivity].
        destruct (String.eqb_spec (key y) (key x)) as [Heq|_]; [|reflexivity].
        exfalso. apply Hnin. rewrite <- Heq. now apply (Hkeys i).
    + intros i y Hy. rewrite group_insert_keys.
      assert (Hor : key y ∈ fst <$> gs \/ key y = key x).
      { apply lookup_snoc_Some in Hy as [[_ Hy]|[_ Hy]]; [left; now apply (Hkeys i)|].
        right. now subst. }
      destruct (decide (key x ∈ fst <$> gs)) as [Hin|Hnin].
      * destruct Hor as [H|H]; [exact H|now rewrite H].
      * apply elem_of_app. destruct Hor as [H|H]; [now left|right].
        now apply list_elem_of_singleton.
Qed.

Lemma filter_andb {A : Type} (f g : A -> bool) (l : list A) :
  List.filter f (List.filter g l) = List.filter (fun x => g x && f x) l.
Proof.
  induction l as [|x l IH]; [reflexivity|]. cbn [List.filter].
  destruct (g x); cbn [List.filter andb]; [|exact IH].
  destruct (f x); now rewrite IH.
Qed.

Lemma filter_indices_length {A : Type} (f : A -> bool) (l : list A) :
  length (List.filter (fun i => match l !! i with Some x => f x | None => false end)
                      (seq 0 (length l)))
  = length (List.filter f l).
Proof.
  induction l as [|x l IH] using rev_ind; [reflexivity|].
  rewrite length_app. cbn [length]. rewrite Nat.add_1_r, seq_S, !List.filter_app, !length_app.
  cbn [Nat.add List.filter]. rewrite list_lookup_middle by reflexivity.
  rewrite <- IH. f_equal; [|now destruct (f x)].
  f_equal. apply filter_ext_in. intros i Hi. apply in_seq in Hi.
  rewrite lookup_app_l by lia. reflexivity.
Qed.

Lemma filter_fmap_length {A B : Type} (f : B -> bool) (g : A -> B) (l : list A) :
  length (List.filter f (g <$> l)) = length (List.filter (fun x => f (g x)) l).
Proof.
  induction l as [|x l IH]; [reflexivity|]. rewrite fmap_cons. cbn [List.filter].
  destruct (f (g x)); cbn [length]; now rewrite IH.
Qed.

(** The count of the first [forEach] of a day is the number of commits of
    the day whose first allocation is below [minCommitTime]. *)
Lemma clampCount_day settings (parsed : list Commit) sd :
  clampCount settings (timed (equalTime settings) parsed <$> parsed)
    (indicesOfKey shortDate (timed (equalTime settings) parsed <$> parsed) sd)
  = belowMinInDay settings parsed sd.
Proof.
  unfold clampCount, indicesOfKey, belowMinInDay, dayCommitsOf.
  set (cs := timed (equalTime settings) parsed <$> parsed).
  rewrite !filter_andb.
  rewrite (filter_ext_in _
             (fun i => match cs !! i with
                       | Some c => String.eqb (shortDate c) sd
                                   && ltb (time_of c) (minCommitTime settings)
                       | None => false
                       end)).
  - rewrite filter_indices_length. unfold cs. rewrite filter_fmap_length. reflexivity.
  - intros i _. now destruct (cs !! i).
Qed.

Lemma fresh_not_flagged c : fresh c -> isMinCommitTime c = false.
Proof. intros [H _]. now rewrite <- H. Qed.

Lemma equalCalculation_lookup rawCommits settings r parsed i c0 :
  equalCalculation rawCommits settings = Return r ->
  _parse rawCommits settings = Return parsed ->
  parsed !! i = Some c0 ->
  exists c,
    commits r !! i = Some c
    /\ parsedFields c = c0
    /\ time c = Some (equalFinalTime settings
                        (belowMinInDay settings parsed (shortDate c0))
                        (equalTime settings (ratioOf parsed c0)))
    /\ isMinCommitTime c
       = ltb (equalTime settings (ratioOf parsed c0)) (minCommitTime settings).
Proof.
  intros H Hp Hi.
  apply equalCalculation_inv in H as (calculation & Hc & Hcs & _).
  apply calculation_commits in Hc as (parsed' & Hp' & _ & Hcalc & _).
  rewrite Hp in Hp'. injection Hp' as <-.
  pose proof (parse_fresh _ _ _ Hp) as Hf.
  assert (Hc0 : fresh c0) by (rewrite Forall_lookup in Hf; exact (Hf i c0 Hi)).
  set (cs := timed (equalTime settings) parsed <$> parsed) in *.
  set (c1 := timed (equalTime settings) parsed c0).
  assert (Hi1 : cs !! i = Some c1).
  { unfold cs. rewrite list_lookup_fmap, Hi. reflexivity. }
  rewrite Hcalc in Hcs.
  destruct (groupBy_spec shortDate cs) as (_ & Hms & Hkeys).
  pose proof (Hkeys i c1 Hi1) as Hkey.
  apply list_elem_of_fmap in Hkey as ([sd ms] & Hsd & Hg). cbn [fst] in Hsd. subst sd.
  pose proof (Hms _ _ Hg) as Hmembers.
  assert (Him : i ∈ ms).
  { rewrite Hmembers. unfold indicesOfKey. apply list_elem_of_In, filter_In. split.
    - apply in_seq. apply lookup_lt_Some in Hi1. lia.
    - rewrite Hi1. apply String.eqb_refl. }
  pose proof (equalDays_lookup_in settings (Lodash.groupBy shortDate cs) cs
                (shortDate c1) ms i c1) as Hres.
  rewrite <- Hcs in Hres. rewrite Hres; try assumption.
  2:{ rewrite groupBy_members. apply NoDup_seq. }
  rewrite Hmembers. unfold cs. rewrite clampCount_day. fold cs.
  change (shortDate c1) with (shortDate c0).
  set (k := belowMinInDay settings parsed (shortDate c0)).
  eexists. split; [reflexivity|]. split.
  { unfold equalDayCommit. rewrite parsedFields_round_commit.
    destruct (k =? 0)%nat; [|rewrite parsedFields_rescale_commit];
      rewrite parsedFields_clampCommit; now destruct Hc0. }
  unfold equalDayCommit, equalFinalTime, clampCommit.
  change (time_of c1) with (equalTime settings (ratioOf parsed c0)).
  destruct (ltb (equalTime settings (ratioOf parsed c0)) (minCommitTime settings)).
  - destruct (k =? 0)%nat; split; reflexivity.
  - destruct (k =? 0)%nat;
      [split; [reflexivity|exact (fresh_not_flagged c0 Hc0)]|].
    unfold rescale_commit.
    change (isMinCommitTime c1) with (isMinCommitTime c0).
    rewrite (fresh_not_flagged c0 Hc0). cbn [negb].
    split; [reflexivity|exact (fresh_not_flagged c0 Hc0)].
Qed.



(* ===================================================================== *)
(** ** The ratio of a commit *)
(* ===================================================================== *)

Lemma of_Z_inj a b : of_Z a = of_Z b -> a = b.
Proof. unfold of_Z, inject_Z. now intros [= ->]. Qed.

Lemma day_lines_total (l : list Commit) acc :
  Forall fresh l -> 0 <= acc ->
  exists m,
    fold_left (fun prev act => add prev (lines act)) l (of_Z acc) = of_Z m
    /\ acc <= m
    /\ forall c n, In c l -> lines c = of_Z n -> acc + n <= m.
Proof.
  intros Hf. revert acc. induction Hf as [|c l (_ & _ & n0 & Hn0 & Hl) Hf IH];
    intros acc Hacc; cbn [fold_left].
  - exists acc. split; [reflexivity|]. split; [lia|]. intros c n [].
  - rewrite Hl, add_of_Z. destruct (IH (acc + n0)) as (m & Hm & Hle & Hall); [lia|].
    exists m. split; [exact Hm|]. split; [lia|].
    intros c' n [<-|Hin] Hn.
    + rewrite Hl in Hn. apply of_Z_inj in Hn. lia.
    + specialize (Hall c' n Hin Hn). lia.
Qed.

Lemma dayCommitsOf_fresh sd (cs : list Commit) :
  Forall fresh cs -> Forall fresh (dayCommitsOf sd cs).
Proof.
  intros H. apply Forall_forall. intros c Hc%list_elem_of_In%filter_In.
  rewrite Forall_forall in H. apply H, list_elem_of_In. now destruct Hc.
Qed.

Lemma in_own_day (cs : list Commit) c : In c cs -> In c (dayCommitsOf (shortDate c) cs).
Proof. intros H. apply filter_In. split; [exact H|apply String.eqb_refl]. Qed.

Lemma ratio_of_fresh (parsed : list Commit) c :
  Forall fresh parsed -> In c parsed ->
  exists n m,
    lines c = of_Z n
    /\ linesInDayOf (shortDate c) parsed = of_Z m
    /\ 0 <= n <= m
    /\ ratioOf parsed c
       = if m =? 0 then NaN else Fin (Qred (inject_Z n / inject_Z m)).
Proof.
  intros Hf Hc.
  assert (Hfc : fresh c) by (rewrite Forall_forall in Hf; now apply Hf, list_elem_of_In).
  destruct Hfc as (_ & _ & n & Hn & Hl).
  destruct (day_lines_total (dayCommitsOf (shortDate c) parsed) 0) as (m & Hm & _ & Hall);
    [now apply dayCommitsOf_fresh|lia|].
  specialize (Hall c n (in_own_day parsed c Hc) Hl).
  exists n, m. split; [exact Hl|]. split; [exact Hm|]. split; [lia|].
  unfold ratioOf. fold (linesInDayOf (shortDate c) parsed) in Hm.
  rewrite Hl, Hm. unfold div, of_Z, Qzero. cbn [Qnum inject_Z].
  destruct (Z.eqb_spec m 0) as [->|Hm0]; [|reflexivity].
  assert (n = 0) by lia. now subst n.
Qed.

(** The ratio that [_calculation] gives to the time method is the share
    [n / m] of the lines [n] of the commit in the lines [m] of its day,
    between 0 and 1; it is [NaN] exactly for a day whose lines sum to 0. *)
Theorem ratio_is_a_share rawCommits settings parsed c :
  _parse rawCommits settings = Return parsed -> In c parsed ->
  exists n m,
    lines c = of_Z n
    /\ linesInDayOf (shortDate c) parsed = of_Z m
    /\ 0 <= n <= m
    /\ (m = 0 -> ratioOf parsed c = NaN)
    /\ (0 < m ->
        exists q, ratioOf parsed c = Fin q
                  /\ (q == inject_Z n / inject_Z m)%Q /\ (0 <= q <= 1)%Q).
Proof.
  intros Hp Hc. apply parse_fresh in Hp.
  destruct (ratio_of_fresh parsed c Hp Hc) as (n & m & Hl & Hm & Hnm & Hr).
  exists n, m. split; [exact Hl|]. split; [exact Hm|]. split; [exact Hnm|]. split.
  - intros ->. exact Hr.
  - intros Hpos. destruct (Z.eqb_spec m 0) as [|_]; [lia|].
    eexists. split; [exact Hr|]. split; [apply Qred_correct|].
    rewrite Qred_correct.
    assert (Hm0 : (0 < inject_Z m)%Q) by (unfold Qlt, inject_Z; cbn; lia).
    split.
    + apply Qle_shift_div_l; [exact Hm0|]. rewrite Qmult_0_l.
      unfold Qle, inject_Z. cbn. lia.
    + apply Qle_shift_div_r; [exact Hm0|]. rewrite Qmult_1_l.
      unfold Qle, inject_Z. cbn. lia.
Qed.

Lemma ratio_is_a_share_witness :
  exists n m,
    lines exampleFirst = of_Z n
    /\ linesInDayOf (shortDate exampleFirst) [exampleFirst; exampleSecond] = of_Z m
    /\ 0 <= n <= m
    /\ (m = 0 -> ratioOf [exampleFirst; exampleSecond] exampleFirst = NaN)
    /\ (0 < m ->
        exists q, ratioOf [exampleFirst; exampleSecond] exampleFirst = Fin q
                  /\ (q == inject_Z n / inject_Z m)%Q /\ (0 <= q <= 1)%Q).
Proof.
  apply (ratio_is_a_share exampleLog exampleSettings).
  - vm_compute; reflexivity.
  - left; reflexivity.
Defined.

Lemma standardTime_NaN settings : standardTime settings NaN = minCommitTime settings.
Proof. reflexivity. Qed.

Lemma roundTwice_NaN settings : roundTwice settings NaN = NaN.
Proof. reflexivity. Qed.

(** A day whose lines sum to 0 (for instance a day of commits that change
    one line each, which git reports in the singular): the ratio of each
    of its commits is [NaN]; the standard method gives such a commit
    [minCommitTime], the equal method gives it [NaN] and does not flag it. *)
Theorem times_of_a_day_without_lines rawCommits settings parsed i c0 :
  _parse rawCommits settings = Return parsed ->
  parsed !! i = Some c0 ->
  linesInDayOf (shortDate c0) parsed = of_Z 0 ->
  ratioOf parsed c0 = NaN
  /\ (forall r, standardCalculation rawCommits settings = Return r ->
        exists c, commits r !! i = Some c /\ time c = Some (minCommitTime settings))
  /\ (forall r, equalCalculation rawCommits settings = Return r ->
        exists c, commits r !! i = Some c /\ time c = Some NaN
                  /\ isMinCommitTime c = false).
Proof.
  intros Hp Hi Hzero. pose proof (parse_fresh _ _ _ Hp) as Hf.
  assert (Hday : forall c, In c parsed -> shortDate c = shortDate c0 ->
                           ratioOf parsed c = NaN).
  { intros c Hc Hsd.
    destruct (ratio_of_fresh parsed c Hf Hc) as (n & m & _ & Hm & _ & Hr).
    rewrite Hsd, Hzero in Hm. apply of_Z_inj in Hm. now subst m. }
  assert (Hr0 : ratioOf parsed c0 = NaN).
  { apply Hday; [|reflexivity]. apply list_elem_of_In. eapply list_elem_of_lookup_2, Hi. }
  split; [exact Hr0|]. split.
  - intros r Hr. apply calculation_commits in Hr as (parsed' & Hp' & _ & Hcs & _).
    rewrite Hp in Hp'. injection Hp' as <-.
    eexists. split; [rewrite Hcs, list_lookup_fmap, Hi; reflexivity|].
    cbn. now rewrite Hr0.
  - intros r Hr.
    destruct (equalCalculation_lookup _ _ _ _ _ _ Hr Hp Hi) as (c & Hc & _ & Ht & Hflag).
    exists c. split; [exact Hc|]. rewrite Ht, Hflag, Hr0.
    assert (Hk : belowMinInDay settings parsed (shortDate c0) = 0%nat).
    { unfold belowMinInDay. rewrite filter_none; [reflexivity|].
      intros c' Hc'. apply filter_In in Hc' as [Hin Hsd].
      apply String.eqb_eq in Hsd. now rewrite (Hday c' Hin Hsd). }
    rewrite Hk. split; reflexivity.
Qed.

Lemma times_of_a_day_without_lines_witness :
  exists c0,
    _parse oneLineLog hourSettings = Return [c0]
    /\ ratioOf [c0] c0 = NaN
    /\ (forall r, equalCalculation oneLineLog hourSettings = Return r ->
          exists c, commits r !! 0%nat = Some c /\ time c = Some NaN
                    /\ isMinCommitTime c = false).
Proof.
  destruct (_parse oneLineLog hourSettings) as [parsed| |] eqn:Ep;
    [|vm_compute in Ep; discriminate..].
  assert (Ep' := Ep). vm_compute in Ep'. injection Ep' as <-.
  eexists. split; [reflexivity|].
  destruct (times_of_a_day_without_lines oneLineLog hourSettings _ 0 _ Ep eq_refl)
    as (Hr & _ & He); [vm_compute; reflexivity|].
  split; [exact Hr|exact He].
Defined.

(** A day with a single commit that has lines: its ratio is 1, so the
    commit gets the time of the whole day from the time method. *)
Theorem single_commit_of_a_day rawCommits settings timeCalculationMethod r parsed i c0 :
  _calculation rawCommits settings timeCalculationMethod = Return r ->
  _parse rawCommits settings = Return parsed ->
  parsed !! i = Some c0 ->
  dayCount (shortDate c0) parsed = 1%nat ->
  lines c0 <> of_Z 0 ->
  ratioOf parsed c0 = of_Z 1
  /\ exists c, commits r !! i = Some c
               /\ time c = Some (timeCalculationMethod (of_Z 1)).
Proof.
  intros Hr Hp Hi Hone Hlines. pose proof (parse_fresh _ _ _ Hp) as Hf.
  assert (Hc0 : In c0 parsed) by (apply list_elem_of_In; eapply list_elem_of_lookup_2, Hi).
  assert (Hratio : ratioOf parsed c0 = of_Z 1).
  { pose proof (in_own_day parsed c0 Hc0) as Hin.
    unfold dayCount in Hone. unfold ratioOf, linesInDayOf.
    destruct (dayCommitsOf (shortDate c0) parsed) as [|c [|c' l]]; try discriminate.
    destruct Hin as [->|[]]. cbn [fold_left].
    assert (Hfc : fresh c0) by (rewrite Forall_forall in Hf; now apply Hf, list_elem_of_In).
    destruct Hfc as (_ & _ & n & Hn & Hl). rewrite Hl, add_of_Z, Z.add_0_l.
    unfold div, of_Z, Qzero. cbn [Qnum inject_Z].
    destruct (Z.eqb_spec n 0) as [->|Hn0]; [now rewrite Hl in Hlines|].
    f_equal. rewrite <- (Qred_inject_Z 1). apply Qred_complete.
    change (inject_Z 1) with 1%Q. unfold Qdiv. apply Qmult_inv_r.
    unfold Qeq, inject_Z. cbn. lia. }
  split; [exact Hratio|].
  apply calculation_commits in Hr as (parsed' & Hp' & _ & Hcs & _).
  rewrite Hp in Hp'. injection Hp' as <-.
  eexists. split; [rewrite Hcs, list_lookup_fmap, Hi; reflexivity|].
  cbn. now rewrite Hratio.
Qed.

Lemma single_commit_of_a_day_witness :
  ratioOf [singleCommit] singleCommit = of_Z 1
  /\ exists c,
       commits {| commits := [set_time (of_Z 8) singleCommit];
                  commitsLengthMap := {[ "2021-03-04"%string := 1%nat ]} |} !! 0%nat = Some c
       /\ time c = Some (standardTime hourSettings (of_Z 1)).
Proof.
  apply (single_commit_of_a_day singleCommitLog hourSettings (standardTime hourSettings)
           {| commits := [set_time (of_Z 8) singleCommit];
              commitsLengthMap := {[ "2021-03-04"%string := 1%nat ]} |}
           [singleCommit] 0 singleCommit).
  - vm_compute; reflexivity.
  - vm_compute; reflexivity.
  - reflexivity.
  - reflexivity.
  - discriminate.
Defined.

(* ===================================================================== *)
(** ** The days of [commitsLengthMap] *)
(* ===================================================================== *)

(** [commitsLengthMap] has an entry exactly for the days that have a
    commit in the result, and no entry is 0. *)
Theorem commitsLengthMap_days rawCommits settings timeCalculationMethod r sd :
  _calculation rawCommits settings timeCalculationMethod = Return r ->
  commitsLengthMap r !! sd
  = if (dayCount sd (commits r) =? 0)%nat then None
    else Some (dayCount sd (commits r)).
Proof.
  intros H. apply calculation_commits in H as (parsed & Hp & _ & Hcs & Hm).
  assert (Hd : dayCount sd (commits r) = dayCount sd parsed).
  { rewrite Hcs.
    now destruct (day_bucket_parsedFields sd _ _
                    (parsedFields_timed_all timeCalculationMethod parsed parsed)) as [-> _]. }
  rewrite Hd, Hm. destruct (Nat.eqb_spec (dayCount sd parsed) 0) as [H0|Hpos].
  - destruct (_ !! sd) as [n|] eqn:E; [|reflexivity].
    apply calculation_loop_map in E as [_ (i & c & _ & Hc & <-)].
    pose proof (dayCount_pos parsed i c Hc). lia.
  - apply calculation_loop_map. split; [reflexivity|].
    unfold dayCount, dayCommitsOf in Hpos.
    destruct (List.filter _ parsed) as [|c l] eqn:E; [now destruct Hpos|].
    assert (Hc : In c (List.filter (fun commit => String.eqb (shortDate commit) sd) parsed))
      by (rewrite E; now left).
    apply filter_In in Hc as [Hin Hsd]. apply String.eqb_eq in Hsd.
    apply list_elem_of_In, list_elem_of_lookup in Hin as [i Hi].
    exists i, c. split; [|now split].
    apply elem_of_seq. apply lookup_lt_Some in Hi. lia.
Qed.

Lemma commitsLengthMap_days_witness :
  commitsLengthMap exampleStandard !! "2021-03-05"%string = None.
Proof.
  rewrite (commitsLengthMap_days exampleLog exampleSettings (standardTime exampleSettings)
             exampleStandard "2021-03-05").
  - reflexivity.
  - vm_compute; reflexivity.
Defined.

(* ===================================================================== *)
(** ** More on the standard method *)
(* ===================================================================== *)



Lemma standard_times_nonneg_witness :
  Forall (fun c => exists t, time c = Some t /\ nonneg t) (commits exampleStandard).
Proof.
  apply (standard_times_nonneg exampleLog exampleSettings exampleStandard).
  - vm_compute; discriminate.
  - vm_compute; reflexivity.
  - vm_compute; discriminate.
  - vm_compute; reflexivity.
Defined.

(* ===================================================================== *)
(** ** The fields of a parsed commit *)
(* ===================================================================== *)

Lemma split_first_app sep a b :
  has_char sep a = false ->
  split_first sep (a ++ String sep b) = (a, split sep b).
Proof.
  induction a as [|c a IH]; cbn [has_char]; intros H.
  - change (split_first sep (String sep b) = (EmptyString, split sep b)).
    cbn [split_first]. unfold split. destruct (split_first sep b) as [h t].
    now rewrite Ascii.eqb_refl.
  - apply orb_false_iff in H as [Hc Ha].
    change (split_first sep (String c (a ++ String sep b)) = (String c a, split sep b)).
    cbn [split_first]. rewrite (IH Ha), Hc. reflexivity.
Qed.

Lemma split_first_whole sep a :
  has_char sep a = false -> split_first sep a = (a, []).
Proof.
  induction a as [|c a IH]; cbn [has_char split_first]; intros H; [reflexivity|].
  apply orb_false_iff in H as [Hc Ha]. rewrite (IH Ha), Hc. reflexivity.
Qed.

(** Splitting undoes joining, for segments without the separator. *)
Lemma split_joinWith sep first rest :
  has_char sep first = false ->
  Forall (fun s => has_char sep s = false) rest ->
  split sep (joinWith sep first rest) = first :: rest.
Proof.
  intros Hfirst Hrest. revert first Hfirst.
  induction Hrest as [|s rest Hs Hrest IH]; intros first Hfirst; cbn [joinWith].
  - unfold split. now rewrite split_first_whole.
  - unfold split at 1. rewrite split_first_app by exact Hfirst. now rewrite IH.
Qed.

(** [project] is the second segment of the path of the [.git] folder,
    counted from the end: the name of the folder that holds it.  A path
    with a single segment gives no project. *)
Theorem project_is_the_parent_folder first rest block c :
  has_char path_sep first = false ->
  Forall (fun s => has_char path_sep s = false) rest ->
  parseCommit (joinWith path_sep first rest) block = Return c ->
  project c = nth_error (List.rev (first :: rest)) 1.
Proof.
  intros Hfirst Hrest. unfold parseCommit.
  destruct (split_first newline block) as [description more].
  destruct (split_first ";" description) as [fh fields].
  destruct (toISOString _) as [iso|e|code]; cbn [bind]; try discriminate.
  intros [= <-]. cbn [project]. now rewrite split_joinWith.
Qed.

Lemma project_is_the_parent_folder_witness :
  project exampleFirst = Some "report"%string.
Proof.
  apply (project_is_the_parent_folder "" ["home"; "dev"; "report"; ".git"]%string
           (commitBlock "fb1eb3ead0e20fed1029bea0edd7626964df326b;fb1eb3e;1614816000;Add parser"
                        " 1 file changed, 10 insertions(+)") exampleFirst).
  - reflexivity.
  - repeat constructor.
  - vm_compute; reflexivity.
Defined.

Lemma digit_char_not_T n : Ascii.eqb (digit_char n) "T" = false.
Proof.
  unfold digit_char.
  assert (H : 0 <= n mod 10 < 10) by (apply Z.mod_pos_bound; lia).
  destruct (n mod 10) as [|p|p]; [reflexivity| |lia].
  do 4 (destruct p as [p|p|]; try reflexivity; try lia).
Qed.

Lemma pad_digits_no_T width n acc :
  has_char "T" acc = false -> has_char "T" (pad_digits width n acc) = false.
Proof.
  revert n acc. induction width as [|w IH]; intros n acc H; cbn [pad_digits]; [exact H|].
  apply IH. cbn [has_char]. now rewrite digit_char_not_T, H.
Qed.

Lemma has_char_app c a b : has_char c (a ++ b) = has_char c a || has_char c b.
Proof.
  induction a as [|x a IH]; [reflexivity|].
  change (has_char c (String x (a ++ b)) = has_char c (String x a) || has_char c b).
  cbn [has_char]. now rewrite IH, orb_assoc.
Qed.

Lemma utcDate_no_T t : has_char "T" (utcDate t) = false.
Proof.
  unfold utcDate. destruct (civil_from_days _) as [[y m] d].
  rewrite !has_char_app.
  assert (Hy : has_char "T" (year_string y) = false).
  { unfold year_string.
    destruct (_ && _); [now apply pad_digits_no_T|].
    destruct (y <? 0); cbn [has_char]; now rewrite pad_digits_no_T. }
  rewrite Hy, !pad_digits_no_T by reflexivity. reflexivity.
Qed.

Lemma append_assoc' (a b c : string) : ((a ++ b) ++ c = a ++ (b ++ c))%string.
Proof.
  induction a as [|x a IH]; [reflexivity|].
  change (String x ((a ++ b) ++ c) = String x (a ++ (b ++ c)))%string. now rewrite IH.
Qed.

Lemma isoString_date t : fst (split_first "T" (isoString t)) = utcDate t.
Proof.
  assert (H : exists rest, isoString t = (utcDate t ++ String "T" rest)%string).
  { unfold isoString, utcDate. destruct (civil_from_days _) as [[y m] d].
    eexists. rewrite !append_assoc'. reflexivity. }
  destruct H as [rest ->]. now rewrite split_first_app by apply utcDate_no_T.
Qed.

(** [shortDate] is the UTC calendar date of [date], written [YYYY-MM-DD]:
    two commits whose dates fall on the same UTC day have the same
    [shortDate], hence are in the same day bucket. *)
Theorem shortDate_is_the_utc_date gitFolder block c :
  parseCommit gitFolder block = Return c ->
  exists t, date c = TimeValue t /\ shortDate c = utcDate t.
Proof.
  unfold parseCommit.
  destruct (split_first newline block) as [description more].
  destruct (split_first ";" description) as [fh fields].
  destruct (new_Date _) as [|t]; cbn [toISOString bind]; [discriminate|].
  intros [= <-]. exists t. split; [reflexivity|]. apply isoString_date.
Qed.

Lemma shortDate_is_the_utc_date_witness :
  exists t, date exampleFirst = TimeValue t /\ shortDate exampleFirst = utcDate t.
Proof.
  apply (shortDate_is_the_utc_date "/home/dev/report/.git"
           (commitBlock "fb1eb3ead0e20fed1029bea0edd7626964df326b;fb1eb3e;1614816000;Add parser"
                        " 1 file changed, 10 insertions(+)")).
  vm_compute; reflexivity.
Defined.

(** *** The epoch-seconds field of git *)

Lemma all_digits_take ds : all_digits ds = true -> take_digits ds = (ds, EmptyString).
Proof.
  induction ds as [|c ds IH]; cbn [all_digits take_digits]; intros H; [reflexivity|].
  apply andb_true_iff in H as [Hc Hds]. now rewrite Hc, (IH Hds).
Qed.

Lemma all_digits_of_list l :
  all_digits (string_of_list_ascii l) = forallb is_digit l.
Proof. induction l as [|c l IH]; cbn; [reflexivity|]. now rewrite IH. Qed.

Lemma drop_space_digits s : all_digits s = true -> drop_space s = s.
Proof.
  destruct s as [|c s]; [reflexivity|]. cbn [all_digits]. intros H.
  apply andb_true_iff in H as [Hc _]. now destruct (digit_not_sign_nor_space c s Hc).
Qed.

Lemma trim_digits ds : all_digits ds = true -> trim ds = ds.
Proof.
  intros H. unfold trim. rewrite (drop_space_digits ds H).
  assert (Hrev : all_digits (rev_string ds) = true).
  { unfold rev_string. rewrite all_digits_of_list. apply forallb_forall.
    intros c Hc%in_rev. rewrite <- (string_of_list_ascii_of_string ds) in H.
    rewrite all_digits_of_list in H. now apply (proj1 (forallb_forall _ _) H). }
  rewrite (drop_space_digits _ Hrev). unfold rev_string.
  rewrite list_ascii_of_string_of_list_ascii, rev_involutive.
  apply string_of_list_ascii_of_string.
Qed.

Lemma unsigned_decimal_digits ds :
  all_digits ds = true -> ds <> EmptyString ->
  unsigned_decimal ds = of_Z (digits_val 0 ds).
Proof.
  intros H Hne. pose proof (all_digits_take ds H) as Ht.
  destruct ds as [|c r]; [congruence|]. unfold unsigned_decimal. rewrite Ht.
  assert (Hinf : String.eqb (String c r) "Infinity" = false).
  { cbn [all_digits] in H. apply andb_true_iff in H as [Hc _].
    destruct c as [[] [] [] [] [] [] [] []]; try discriminate Hc; reflexivity. }
  rewrite Hinf. set (v := digits_val 0 (String c r)).
  cbn [String.length Nat.eqb andb exponent_part digits_val].
  unfold of_Z. f_equal. rewrite <- (Qred_inject_Z v) at 2.
  apply Qred_complete. cbn [Z.of_nat Z.sub Z.opp Qpower]. apply Qmult_1_r.
Qed.

Lemma ToNumber_str_digits ds :
  all_digits ds = true -> ds <> EmptyString ->
  ToNumber_str ds = of_Z (digits_val 0 ds).
Proof.
  intros H Hne. rewrite <- (unsigned_decimal_digits ds H Hne).
  unfold ToNumber_str. rewrite (trim_digits ds H).
  destruct ds as [|c r]; [congruence|]. cbn [all_digits] in H.
  apply andb_true_iff in H as [Hc Hr].
  destruct c as [[] [] [] [] [] [] [] []]; try discriminate Hc; try reflexivity.
  destruct r as [|x r]; [reflexivity|]. cbn [all_digits] in Hr.
  apply andb_true_iff in Hr as [Hx _].
  destruct x as [[] [] [] [] [] [] [] []]; try discriminate Hx; reflexivity.
Qed.

Lemma mul_of_Z a b : mul (of_Z a) (of_Z b) = of_Z (a * b).
Proof.
  unfold mul, of_Z. f_equal. rewrite <- (Qred_inject_Z (a * b)).
  apply Qred_complete. now rewrite inject_Z_mult.
Qed.

Lemma new_Date_of_Z t :
  0 <= t <= 8640000000000000 -> new_Date (of_Z t) = TimeValue t.
Proof.
  intros H. unfold new_Date, of_Z, Qabs', Qneg, Qltb, Qtrunc. cbn [Qnum Qden inject_Z].
  destruct (Z.ltb_spec t 0) as [|_]; [lia|].
  assert (Hle : Qle_bool (inject_Z t) (inject_Z 8640000000000000) = true).
  { apply Qle_bool_iff. unfold Qle, inject_Z. cbn [Qnum Qden]. lia. }
  rewrite Hle. cbn [negb]. now rewrite Z.quot_1_r.
Qed.

(** A block as git writes it, with an epoch-seconds field made of decimal
    digits (up to the year 275760), is parsed: the date is the epoch-seconds
    times 1000 and the lines are the two counts of the stats line. *)
Theorem git_block_is_parsed gitFolder block ds :
  epochField block = Some ds ->
  all_digits ds = true -> ds <> EmptyString ->
  digits_val 0 ds <= 8640000000000 ->
  exists c,
    parseCommit gitFolder block = Return c
    /\ date c = TimeValue (digits_val 0 ds * 1000)
    /\ lines c = of_Z (countOf "insertions" (statsLine block)
                       + countOf "deletions" (statsLine block)).
Proof.
  intros He Hd Hne Hmax.
  assert (Hpos : 0 <= digits_val 0 ds)
    by (apply digits_val_nonneg; [now apply all_digits_take|lia]).
  assert (Hdate : blockDate block = TimeValue (digits_val 0 ds * 1000)).
  { unfold blockDate. rewrite He. cbn [ToNumber_opt].
    rewrite (ToNumber_str_digits ds Hd Hne), mul_of_Z. apply new_Date_of_Z. lia. }
  pose proof (parseCommit_inv gitFolder block) as H.
  destruct (parseCommit gitFolder block) as [c|e|code].
  - exists c. destruct H as (Hc & _ & Hl). rewrite Hc, Hdate. now repeat split.
  - rewrite Hdate in H. discriminate.
  - destruct H.
Qed.

Lemma git_block_is_parsed_witness :
  exists c,
    parseCommit "/home/dev/report/.git"
      (commitBlock "fb1eb3ead0e20fed1029bea0edd7626964df326b;fb1eb3e;1614816000;Add parser"
                   " 2 files changed, 7 insertions(+), 5 deletions(-)") = Return c
    /\ date c = TimeValue (1614816000 * 1000)
    /\ lines c = of_Z (7 + 5).
Proof.
  apply (git_block_is_parsed "/home/dev/report/.git"
           (commitBlock "fb1eb3ead0e20fed1029bea0edd7626964df326b;fb1eb3e;1614816000;Add parser"
                        " 2 files changed, 7 insertions(+), 5 deletions(-)")
           "1614816000").
  - reflexivity.
  - reflexivity.
  - discriminate.
  - vm_compute; discriminate.
Defined.

(* ===================================================================== *)
(** ** The roundings of the equal method *)
(* ===================================================================== *)

Lemma Math_round_close q : (Qabs (inject_Z (Qfloor (q + (1 # 2))) - q) <= 1 # 2)%Q.
Proof.
  apply Qabs_Qle_condition.
  pose proof (Qfloor_le (q + (1 # 2))) as H1. pose proof (Qlt_floor (q + (1 # 2))) as H2.
  rewrite inject_Z_plus in H2. change (inject_Z 1) with 1%Q in H2. split; lra.
Qed.

(** [_.round(q, p)] is a multiple of [10^-p] at distance at most
    [10^-p / 2] from [q]. *)
Lemma lodash_round_close q p :
  0 <= p <= 292 ->
  exists v,
    Lodash.round (Fin q) p = Fin (Qred (inject_Z v * Qpower 10 (- p)))
    /\ (Qabs (inject_Z v * Qpower 10 (- p) - q) <= (1 # 2) * Qpower 10 (- p))%Q.
Proof.
  intros Hp. unfold Lodash.round. rewrite Z.min_l by lia.
  destruct (Z.eqb_spec p 0) as [->|Hp0].
  - exists (Qfloor (q + (1 # 2))). change (Qpower 10 (- 0)) with 1%Q.
    cbn [Z.eqb Math_round]. split.
    + unfold of_Z. f_equal. rewrite <- (Qred_inject_Z (Qfloor _)) at 1.
      apply Qred_complete. now rewrite Qmult_1_r.
    + pose proof (Math_round_close q) as H. apply Qabs_Qle_condition in H.
      apply Qabs_Qle_condition. split; lra.
  - exists (Qfloor (q * Qpower 10 p + (1 # 2))). cbn [Math_round of_Z].
    split; [reflexivity|].
    pose proof (Math_round_close (q * Qpower 10 p)) as H.
    assert (HP : (0 < Qpower 10 p)%Q) by (apply Qpower_0_lt; reflexivity).
    rewrite Qpower_opp. set (P := Qpower 10 p) in *.
    set (v := inject_Z (Qfloor (q * P + (1 # 2)))) in *.
    assert (Hinv : (0 < / P)%Q) by now apply Qinv_lt_0_compat.
    assert (Heq : (v * / P - q == (v - q * P) * / P)%Q) by (field; lra).
    rewrite Heq, Qabs_Qmult, (Qabs_pos (/ P)) by lra.
    apply Qmult_le_compat_r; [exact H|lra].
Qed.

Lemma roundTwice_close settings q :
  0 <= equalRoundPrecision settings <= 291 ->
  exists v,
    roundTwice settings (Fin q)
    = Fin (Qred (inject_Z v * Qpower 10 (- equalRoundPrecision settings)))
    /\ (Qabs (inject_Z v * Qpower 10 (- equalRoundPrecision settings) - q)
        <= (11 # 20) * Qpower 10 (- equalRoundPrecision settings))%Q.
Proof.
  intros Hp. unfold roundTwice. set (p := equalRoundPrecision settings) in *.
  destruct (lodash_round_close q (p + 1)) as (v1 & -> & H1); [lia|].
  destruct (lodash_round_close (Qred (inject_Z v1 * Qpower 10 (- (p + 1)))) p)
    as (v & -> & H2); [lia|].
  exists v. split; [reflexivity|].
  rewrite Qred_correct in H2.
  assert (HX : (0 < Qpower 10 (- p))%Q) by (apply Qpower_0_lt; reflexivity).
  assert (Hten : (Qpower 10 (- (p + 1)) == Qpower 10 (- p) * (1 # 10))%Q).
  { replace (- (p + 1)) with (- p + - 1) by lia.
    rewrite Qpower_plus by discriminate. reflexivity. }
  rewrite Hten in H1, H2. clear Hten. set (X := Qpower 10 (- p)) in *.
  set (b1 := (inject_Z v1 * (X * (1 # 10)))%Q) in *.
  set (b := (inject_Z v * X)%Q) in *. clearbody b b1 X.
  apply Qabs_Qle_condition in H1, H2. apply Qabs_Qle_condition. split; lra.
Qed.

(** Every finite time that the equal method returns is a multiple of
    [10^-equalRoundPrecision]: it has at most [equalRoundPrecision]
    decimals. *)
Theorem equal_times_have_the_precision rawCommits settings r c :
  0 <= equalRoundPrecision settings <= 291 ->
  equalCalculation rawCommits settings = Return r ->
  In c (commits r) ->
  exists t,
    time c = Some t
    /\ (t = NaN \/ (exists s, t = Inf s)
        \/ exists v, t = Fin (Qred (inject_Z v
                                    * Qpower 10 (- equalRoundPrecision settings)))).
Proof.
  intros Hprec Hr Hc.
  apply list_elem_of_In, list_elem_of_lookup in Hc as [i Hi].
  assert (Hp : exists parsed c0, _parse rawCommits settings = Return parsed
                                 /\ parsed !! i = Some c0).
  { pose proof Hr as Hr'. apply equalCalculation_inv in Hr' as (calculation & Hcalc & Hcs & _).
    apply calculation_commits in Hcalc as (parsed & Hp & _ & Hcc & _).
    exists parsed. assert (Hlen : length (commits r) = length parsed).
    { rewrite <- (length_fmap parsedFields (commits r)), Hcs, parsedFields_equalDays, Hcc.
      now rewrite parsedFields_timed_all, length_fmap. }
    destruct (parsed !! i) as [c0|] eqn:E; [now exists c0|].
    apply lookup_ge_None in E. apply lookup_lt_Some in Hi. lia. }
  destruct Hp as (parsed & c0 & Hp & Hi0).
  destruct (equalCalculation_lookup _ _ _ _ _ _ Hr Hp Hi0) as (c' & Hc' & _ & Ht & _).
  rewrite Hi in Hc'. injection Hc' as <-. eexists. split; [exact Ht|].
  unfold equalFinalTime.
  match goal with |- context [roundTwice settings ?x] => set (t0 := x) end.
  destruct t0 as [|s|q].
  - now left.
  - right. left. exists s. unfold roundTwice, Lodash.round. reflexivity.
  - right. right. destruct (roundTwice_close settings q Hprec) as (v & Hv & _).
    now exists v.
Qed.

Lemma equal_times_have_the_precision_witness :
  exists t,
    time (set_time (Fin (38 # 5)) largeCommit) = Some t
    /\ (t = NaN \/ (exists s, t = Inf s)
        \/ exists v, t = Fin (Qred (inject_Z v
                                    * Qpower 10 (- equalRoundPrecision oneDigitSettings)))).
Proof.
  apply (equal_times_have_the_precision smallCommitLog oneDigitSettings smallCommitResult).
  - cbn. lia.
  - vm_compute; reflexivity.
  - right. left. reflexivity.
Defined.

(* ===================================================================== *)
(** ** The equal method and the hours of the day *)
(* ===================================================================== *)





Section DaySums.

Variables (m : Z) (w : Q).
Hypothesis m_positive : 0 < m.




Variable settings : Settings.
Hypothesis precision_in_range : 0 <= equalRoundPrecision settings <= 291.



End DaySums.









(* ===================================================================== *)
(** ** The standard method and the steps of [graduation] *)
(* ===================================================================== *)






